(** * duffle: bundle index, reference resolution, content store, install

    A shallow embedding of the Go sources of the repository:
    - [repo]    : pkg/repo index catalog ([IndexFile], [Get], [Has],
                  [SortEntries], [Merge], [loadIndex]) and the repository
                  generator ([GenerateFromDirectory]);
    - [store]   : pkg/store/local [signAndWriteBundle];
    - [main]    : cmd/duffle install command ([newInstallCmd], [getBundleFile]).

    Go packages become modules, structs become records, [map[string]T]
    becomes [gmap string T], slices become lists, [(T, error)] results
    become [error + T], and the file system, the network, the log and the
    claim store are threaded explicitly as a [World]. *)

From Stdlib Require Import String Ascii List Bool Arith Lia Permutation DecimalString.
From stdpp Require Import base list gmap strings.

Open Scope string_scope.
Open Scope nat_scope.
Open Scope list_scope.

(** ** Go prelude: errors and the [strings] package *)

(** A Go [error] is identified with the text its [Error()] method returns;
    [nil] is [None] in an [option error]. *)
Inductive error : Type := errors_New (msg : string).

Definition error_msg (e : error) : string :=
  match e with errors_New m => m end.

#[global] Instance error_eq_dec : EqDecision error.
Proof. solve_decision. Defined.

(** [fmt.Errorf] with the format already expanded by the caller. *)
Definition fmt_Errorf (text : string) : error := errors_New text.

(** The formatting verbs the sources use. [%v] of an error prints its
    message, [%v] of a [[]string] prints the elements between brackets,
    separated by blanks. *)
Fixpoint join_blank (l : list string) : string :=
  match l with
  | [] => ""
  | [s] => s
  | s :: rest => s +:+ " " +:+ join_blank rest
  end.

Definition fmt_v_strings (l : list string) : string := "[" +:+ join_blank l +:+ "]".

Module strings.

(** [len(s) >= len(suffix) && s[len(s)-len(suffix):] == suffix] *)
Definition HasSuffix (s suffix : string) : bool :=
  (String.length suffix <=? String.length s)
  && String.eqb (substring (String.length s - String.length suffix)
                           (String.length suffix) s) suffix.

(** [Index(s, substr) >= 0] *)
Definition Contains (s substr : string) : bool :=
  match index 0 substr s with Some _ => true | None => false end.

(** [SplitN(s, sep, 2)] for a non-empty separator: at most two pieces,
    cut at the first occurrence of [sep]. *)
Definition SplitN2 (s sep : string) : list string :=
  match index 0 sep s with
  | Some i =>
      [substring 0 i s;
       substring (i + String.length sep)
                 (String.length s - (i + String.length sep)) s]
  | None => [s]
  end.

End strings.

(** ** The semantic-version library (github.com/Masterminds/semver)

    The library is not part of the repository; the index catalog uses four
    of its operations, which are taken as an interface. [NewVersion]
    returns [None] where the library returns an error (every caller in the
    repository only tests that error against [nil]). [Wildcard] is the
    value of [semver.NewConstraint("*")], whose error [Get] discards. *)
Module semver.

Class Lib : Type := {
  Version : Type;
  Constraints : Type;
  NewVersion : string -> option Version;
  NewConstraint : string -> error + Constraints;
  Wildcard : Constraints;
  Check : Constraints -> Version -> bool;
  LessThan : Version -> Version -> bool;
}.

(** What sorting relies on: [LessThan] is a strict weak order. *)
Class Order (L : Lib) : Prop := {
  LessThan_asym : forall a b : Version, LessThan a b = true -> LessThan b a = false;
  LessThan_negtrans : forall a b c : Version,
      LessThan a b = false -> LessThan b c = false -> LessThan a c = false;
}.

(** What "any version" relies on: the wildcard is what "*" parses to, and
    it admits every version. *)
Class Laws (L : Lib) : Prop := {
  Laws_Order :: Order L;
  Wildcard_parse : NewConstraint "*" = inr Wildcard;
  Wildcard_Check : forall v : Version, Check Wildcard v = true;
}.

(** A constraint [c] is exact for [v] when it admits precisely the
    versions that compare equal to [v], as the constraint parsed from a
    full version string such as "1.2.3" does. *)
Definition Equal `{Lib} (a b : Version) : bool :=
  negb (LessThan a b) && negb (LessThan b a).

Definition exact `{Lib} (c : Constraints) (v : Version) : Prop :=
  forall t : Version, Check c t = Equal t v.

End semver.

#[global] Existing Instance semver.Laws_Order.

(** *** A concrete fragment of the library

    Versions MAJOR.MINOR.PATCH written with decimal digits, the wildcard
    constraint and the constraints that are such a version. The library
    accepts more (a leading v, missing components, pre-release and build
    metadata, ranges); on full versions and on words such as "latest" and
    "edge", which it rejects both as version and as constraint, the
    fragment answers as the library does. It serves the concrete runs. *)
Module semver3.

Definition digit_val (c : ascii) : option nat :=
  let n := nat_of_ascii c in
  if (48 <=? n) && (n <=? 57) then Some (n - 48) else None.

Fixpoint digits (s : string) (acc : nat) : option nat :=
  match s with
  | EmptyString => Some acc
  | String c rest =>
      match digit_val c with
      | Some d => digits rest (10 * acc + d)
      | None => None
      end
  end.

Definition number (s : string) : option nat :=
  match s with
  | EmptyString => None
  | _ => digits s 0
  end.

(** Split at every dot. *)
Fixpoint fields (s : string) (cur : string) : list string :=
  match s with
  | EmptyString => [cur]
  | String c rest =>
      if Ascii.eqb c "."%char then cur :: fields rest ""
      else fields rest (cur +:+ String c "")
  end.

Definition parse (s : string) : option (nat * nat * nat) :=
  match fields s "" with
  | [a; b; c] =>
      match number a, number b, number c with
      | Some x, Some y, Some z => Some (x, y, z)
      | _, _, _ => None
      end
  | _ => None
  end.

Definition lt3 (a b : nat * nat * nat) : bool :=
  let '(a1, a2, a3) := a in
  let '(b1, b2, b3) := b in
  (a1 <? b1) || ((a1 =? b1) && ((a2 <? b2) || ((a2 =? b2) && (a3 <? b3)))).

Inductive constr : Type :=
| Any
| Exactly (v : nat * nat * nat).

Definition parse_constr (s : string) : error + constr :=
  if String.eqb s "*" then inr Any
  else match parse s with
       | Some v => inr (Exactly v)
       | None => inl (fmt_Errorf ("improper constraint: " +:+ s))
       end.

Definition check (c : constr) (v : nat * nat * nat) : bool :=
  match c with
  | Any => true
  | Exactly w => negb (lt3 v w) && negb (lt3 w v)
  end.

#[global] Instance lib : semver.Lib := {|
  semver.Version := nat * nat * nat;
  semver.Constraints := constr;
  semver.NewVersion := parse;
  semver.NewConstraint := parse_constr;
  semver.Wildcard := Any;
  semver.Check := check;
  semver.LessThan := lt3;
|}.

End semver3.

(** ** Package bundle: the bundle manifest *)
Module bundle.

Record LocationRef : Type := {
  LocationRef_Path : string;
  Field : string;
}.

Record Image : Type := {
  Image_Name : string;
  URI : string;
  Refs : list LocationRef;
}.

Record InvocationImage : Type := {
  ImageType : string;
  InvocationImage_Image : string;
}.

Record CredentialLocation : Type := {
  Path : string;
  EnvironmentVariable : string;
}.

(** Modelled from the spec: the declaration of [ParameterDefinition] is
    not among the sources; the spec only says a manifest carries a "set of
    named parameter definitions". No function of the repository looks
    inside one, so a definition is kept as the text [%v] prints for it. *)
Inductive ParameterDefinition : Type := ParameterDefinition_text (repr : string).

(** Go maps are printed and marshalled key by key; the manifest keeps them
    as association lists in that order. *)
Record Bundle : Type := {
  Name : string;
  Version : string;
  InvocationImage_ : InvocationImage;
  Images : list Image;
  Parameters : list (string * ParameterDefinition);
  Credentials : list (string * CredentialLocation);
}.

End bundle.

(** ** Package claim: the installation record *)
Module claim.

(** A decoded parameter value ([interface{}]); only its text matters here. *)
Inductive any : Type := any_text (repr : string).

(** Modelled from the spec: package claim is not among the sources. The
    spec describes a claim as "installation name (unique key), referenced
    invocation image, image type, resolved parameter values, and a
    status/outcome record"; the install command assigns [Bundle],
    [ImageType] and [Parameters]. *)
Record Claim : Type := {
  Name : string;
  Bundle : string;
  ImageType : string;
  Parameters : list (string * any);
  Result : string;
}.

Definition set_Bundle (c : Claim) (b : string) : Claim :=
  {| Name := Name c; Bundle := b; ImageType := ImageType c;
     Parameters := Parameters c; Result := Result c |}.

Definition set_ImageType (c : Claim) (t : string) : Claim :=
  {| Name := Name c; Bundle := Bundle c; ImageType := t;
     Parameters := Parameters c; Result := Result c |}.

Definition set_Parameters (c : Claim) (p : list (string * any)) : Claim :=
  {| Name := Name c; Bundle := Bundle c; ImageType := ImageType c;
     Parameters := p; Result := Result c |}.

End claim.

(** ** The world the commands act on

    Files written with [ioutil.WriteFile], directories made with
    [os.MkdirAll], lines printed on standard output, lines sent to the
    logger, URLs requested with [http.Get], and the claims handed to the
    claim store, each in the order of the calls. *)
Record World : Type := {
  files : gmap string string;
  dirs : list string;
  stdout : list string;
  logs : list string;
  requests : list string;
  stored : list claim.Claim;
}.

Definition World_empty : World :=
  {| files := ∅; dirs := []; stdout := []; logs := []; requests := []; stored := [] |}.

Definition set_files (f : gmap string string -> gmap string string) (w : World) : World :=
  {| files := f (files w); dirs := dirs w; stdout := stdout w; logs := logs w;
     requests := requests w; stored := stored w |}.

Definition add_dir (d : string) (w : World) : World :=
  {| files := files w; dirs := dirs w ++ [d]; stdout := stdout w; logs := logs w;
     requests := requests w; stored := stored w |}.

Definition add_stdout (line : string) (w : World) : World :=
  {| files := files w; dirs := dirs w; stdout := stdout w ++ [line]; logs := logs w;
     requests := requests w; stored := stored w |}.

Definition add_log (line : string) (w : World) : World :=
  {| files := files w; dirs := dirs w; stdout := stdout w; logs := logs w ++ [line];
     requests := requests w; stored := stored w |}.

Definition add_request (url : string) (w : World) : World :=
  {| files := files w; dirs := dirs w; stdout := stdout w; logs := logs w;
     requests := requests w ++ [url]; stored := stored w |}.

Definition add_stored (c : claim.Claim) (w : World) : World :=
  {| files := files w; dirs := dirs w; stdout := stdout w; logs := logs w;
     requests := requests w; stored := stored w ++ [c] |}.

(** *** Computations that fail or return, over the world *)
Definition M (A : Type) : Type := World -> (error + A) * World.

Definition ret {A : Type} (a : A) : M A := fun w => (inr a, w).

Definition fail {A : Type} (e : error) : M A := fun w => (inl e, w).

Definition bind {A B : Type} (m : M A) (k : A -> M B) : M B :=
  fun w => match m w with
           | (inr a, w') => k a w'
           | (inl e, w') => (inl e, w')
           end.

(** Lift a result that does not touch the world: [v, err := f(); if err != nil { return err }]. *)
Definition lift {A : Type} (r : error + A) : M A := fun w => (r, w).

(** Run an action on the world that cannot fail. *)
Definition act (f : World -> World) : M unit := fun w => (inr tt, f w).

Notation "'let*' x ':=' m 'in' k" := (bind m (fun x => k))
  (at level 10, x name, m at level 100, k at level 200).
Notation "'do*' m 'in' k" := (bind m (fun _ => k))
  (at level 10, m at level 100, k at level 200).

(** What the operating system, the Go standard library and the vendored
    helpers answer; none of it is code of the repository. *)
Record OS : Type := {
  (** [ioutil.WriteFile]: [Some err] when the write fails. *)
  WriteFile_err : World -> string -> option error;
  (** [os.MkdirAll] *)
  MkdirAll_err : World -> string -> option error;
  (** [filepath.Glob] *)
  Glob : World -> string -> error + list string;
  filepath_Join : list string -> string;
  filepath_Rel : string -> string -> error + string;
  filepath_Split : string -> string * string;
  filepath_Ext : string -> string;
  (** [urlutil.URLJoin(base, path)] *)
  URLJoin : string -> string -> error + string;
  (** [time.Now] *)
  Now : World -> nat;
}.

Section OSCalls.
Context (sys : OS).

Definition ioutil_ReadFile (path : string) : M string :=
  fun w => match files w !! path with
           | Some data => (inr data, w)
           | None => (inl (errors_New ("open " +:+ path +:+ ": no such file or directory")), w)
           end.

Definition ioutil_WriteFile (path data : string) : M unit :=
  fun w => match WriteFile_err sys w path with
           | Some err => (inl err, w)
           | None => (inr tt, set_files (<[path := data]>) w)
           end.

Definition os_MkdirAll (path : string) : M unit :=
  fun w => match MkdirAll_err sys w path with
           | Some err => (inl err, w)
           | None => (inr tt, add_dir path w)
           end.

Definition filepath_Glob (pattern : string) : M (list string) :=
  fun w => (Glob sys w pattern, w).

Definition time_Now : M nat := fun w => (inr (Now sys w), w).

End OSCalls.

(** ** Package sort (Go standard library)

    [sort.Sort] drives any value that offers [Len], [Less] and [Swap]. *)
Module sort.

Class Interface (D : Type) : Type := {
  Len : D -> nat;
  Less : D -> nat -> nat -> bool;
  Swap : D -> nat -> nat -> D;
}.

(** [sort.Reverse]: the same data with [Less(i, j)] answered by the
    underlying [Less(j, i)]. *)
Definition Reverse {D : Type} (I : Interface D) : Interface D :=
  {| Len := @Len D I;
     Less := fun data i j => @Less D I data j i;
     Swap := @Swap D I |}.

(** The inner loop of [insertionSort]:
    [for j := i; j > a && data.Less(j, j-1); j-- { data.Swap(j, j-1) }] *)
Fixpoint insertionInner {D : Type} (I : Interface D) (a j : nat) (data : D) : D :=
  match j with
  | 0 => data
  | S j' =>
      if (a <? j) && @Less D I data j j'
      then insertionInner I a j' (@Swap D I data j j')
      else data
  end.

(** [for i := a + 1; i < b; i++ { ... }] *)
Definition insertionSort {D : Type} (I : Interface D) (data : D) (a b : nat) : D :=
  fold_left (fun d i => insertionInner I a i d) (seq (a + 1) (b - (a + 1))) data.

(** [sort.Sort(data)] hands a range of at most twelve elements to
    [insertionSort] (releases before Go 1.19 first compare the elements six
    apart when there are more than six); longer ranges are first cut up by
    a quicksort. The index lists of a repository are short, and the model
    of [Sort] is that insertion sort. The library documents that [Sort] is
    not stable. *)
Definition Sort {D : Type} (I : Interface D) (data : D) : D :=
  insertionSort I data 0 (@Len D I data).

End sort.

(** ** Package repo: the index catalog and the repository generator *)
Module repo.

Definition IndexPath : string := "index.json".

Definition APIVersionV1 : string := "v1".

Definition ErrNoAPIVersion : error := errors_New "no API version specified".

Definition ErrNoBundleVersion : error := errors_New "no bundle with the given version found".

Definition ErrNoBundleName : error := errors_New "no bundle name found".

Record Maintainer : Type := {
  Maintainer_Name : string;
  Email : string;
  URL : string;
}.

(** [Added] is a [time.Time], kept as a clock reading. The entry's own
    [APIVersion] field is [Entry_APIVersion]. *)
Record BundleEntry : Type := {
  Name : string;
  Version : string;
  Home : string;
  URLs : list string;
  Description : string;
  Keywords : list string;
  Maintainers : list Maintainer;
  Entry_APIVersion : string;
  Digest : string;
  Added : nat;
}.

Abbreviation BundleEntries := (list BundleEntry).

Record IndexFile : Type := {
  APIVersion : string;
  Generated : nat;
  Entries : gmap string BundleEntries;
  PublicKeys : list string;
}.

Definition set_Entries (f : gmap string BundleEntries -> gmap string BundleEntries)
  (i : IndexFile) : IndexFile :=
  {| APIVersion := APIVersion i; Generated := Generated i;
     Entries := f (Entries i); PublicKeys := PublicKeys i |}.

(** [c[i], c[j] = c[j], c[i]]; Go panics on an index out of range, which
    [insertionSort] never passes. *)
Definition BundleEntries_Swap (c : BundleEntries) (i j : nat) : BundleEntries :=
  match c !! i, c !! j with
  | Some x, Some y => <[i := y]> (<[j := x]> c)
  | _, _ => c
  end.

(** [NewIndexFile] at clock reading [now]. *)
Definition NewIndexFile (now : nat) : IndexFile :=
  {| APIVersion := APIVersionV1; Generated := now; Entries := ∅; PublicKeys := [] |}.

(** [Add]: append under [e.Name]. *)
Definition Add (i : IndexFile) (e : BundleEntry) : IndexFile :=
  match Entries i !! Name e with
  | None => set_Entries (<[Name e := [e]]>) i
  | Some ee => set_Entries (<[Name e := ee ++ [e]]>) i
  end.

Section Catalog.
Context {L : semver.Lib}.

(** [BundleEntries.Less]: a failed parse of [c[a]] answers [true] before
    [c[b]] is looked at. *)
Definition BundleEntries_Less (c : BundleEntries) (a b : nat) : bool :=
  match c !! a, c !! b with
  | Some ea, Some eb =>
      match semver.NewVersion (Version ea) with
      | None => true
      | Some i =>
          match semver.NewVersion (Version eb) with
          | None => false
          | Some j => semver.LessThan i j
          end
      end
  | _, _ => false
  end.

#[export] Instance BundleEntries_Interface : sort.Interface BundleEntries :=
  {| sort.Len := fun c => length c;
     sort.Less := BundleEntries_Less;
     sort.Swap := BundleEntries_Swap |}.

(** [SortEntries]: every slice of the map is sorted in place with
    [sort.Sort(sort.Reverse(versions))]. *)
Definition SortEntries (i : IndexFile) : IndexFile :=
  set_Entries (fmap (sort.Sort (sort.Reverse BundleEntries_Interface))) i.

(** The loop of [Get]: the first entry whose version parses and passes the
    constraint. *)
Fixpoint firstMatch (constraint : semver.Constraints) (vs : BundleEntries)
  : option BundleEntry :=
  match vs with
  | [] => None
  | ver :: rest =>
      match semver.NewVersion (Version ver) with
      | None => firstMatch constraint rest
      | Some test =>
          if semver.Check constraint test then Some ver
          else firstMatch constraint rest
      end
  end.

Definition Get (i : IndexFile) (name version : string) : error + BundleEntry :=
  match Entries i !! name with
  | None => inl ErrNoBundleName
  | Some vs =>
      if length vs =? 0 then inl ErrNoBundleVersion
      else
        match (if String.length version =? 0 then inr semver.Wildcard
               else semver.NewConstraint version) with
        | inl err => inl err
        | inr constraint =>
            match firstMatch constraint vs with
            | Some ver => inr ver
            | None =>
                inl (fmt_Errorf ("No bundle version found for "
                                 +:+ name +:+ "-" +:+ version))
            end
        end
  end.

(** [Has]: [_, err := i.Get(name, version); return err == nil] *)
Definition Has (i : IndexFile) (name version : string) : bool :=
  match Get i name version with
  | inr _ => true
  | inl _ => false
  end.

(** The body of the inner loop of [Merge]. *)
Definition mergeEntry (i : IndexFile) (cv : BundleEntry) : IndexFile :=
  if negb (Has i (Name cv) (Version cv))
  then set_Entries (<[Name cv := default [] (Entries i !! Name cv) ++ [cv]]>) i
  else i.

(** [Merge] ranges over the map [f.Entries]; Go leaves the order of that
    iteration open, so [MergeIn] takes the slices in the order they are
    visited and [Merge] visits them in the order of the keys. *)
Definition MergeIn (visit : list BundleEntries) (i : IndexFile) : IndexFile :=
  fold_left (fun acc cvs => fold_left mergeEntry cvs acc) visit i.

Definition Merge (i f : IndexFile) : IndexFile :=
  MergeIn (snd <$> map_to_list (Entries f)) i.

(** What the encoders, the loader and the digest answer. *)
Record Env : Type := {
  (** [json.Unmarshal(data, i)] into a zero [IndexFile] *)
  json_Unmarshal_IndexFile : string -> error + IndexFile;
  json_Marshal_IndexFile : IndexFile -> error + string;
  json_Marshal_BundleEntry : BundleEntry -> error + string;
  (** the decoder behind [loader.New(file).Load()] *)
  bundle_Unmarshal : string -> error + bundle.Bundle;
  (** the digest [provenance.DigestFile] takes of a file's bytes *)
  provenance_Digest : string -> string;
}.

Context (sys : OS) (env : Env).

(** [loadIndex]: unmarshal, sort, return. *)
Definition loadIndex (data : string) : error + IndexFile :=
  match json_Unmarshal_IndexFile env data with
  | inl err => inl err
  | inr i => inr (SortEntries i)
  end.

Definition LoadIndexFile (path : string) : M IndexFile :=
  let* b := ioutil_ReadFile path in
  lift (loadIndex b).

(** [IndexFile.WriteFile] *)
Definition WriteFile (i : IndexFile) (dest : string) : M unit :=
  let* b := lift (json_Marshal_IndexFile env i) in
  ioutil_WriteFile sys dest b.

Definition loader_Load (bundleFile : string) : M bundle.Bundle :=
  let* data := ioutil_ReadFile bundleFile in
  lift (bundle_Unmarshal env data).

Definition provenance_DigestFile (bundleFile : string) : M string :=
  let* data := ioutil_ReadFile bundleFile in
  ret (provenance_Digest env data).

(** The body of the loop of [GenerateFromDirectory] (the variant that
    keeps the index), for one globbed file. *)
Definition generateOne (dir baseURL : string) (index : IndexFile)
  (bundleFile : string) : M IndexFile :=
  if strings.HasSuffix bundleFile "index.json" then ret index
  else
    let* b := loader_Load bundleFile in
    let* rel := lift (filepath_Rel sys dir bundleFile) in
    let parentDir := fst (filepath_Split sys rel) in
    let fname := snd (filepath_Split sys rel) in
    let parentURL :=
      match URLJoin sys baseURL parentDir with
      | inr u => u
      | inl _ => filepath_Join sys [baseURL; parentDir]
      end in
    let* hash := provenance_DigestFile bundleFile in
    do* act (add_stdout ("adding " +:+ bundle.Name b +:+ " " +:+ bundle.Version b)) in
    let u :=
      if String.eqb parentURL "" then fname
      else
        let file := snd (filepath_Split sys fname) in
        match URLJoin sys parentURL file with
        | inr u' => u'
        | inl _ => filepath_Join sys [parentURL; file]
        end in
    let* now := time_Now sys in
    let entry :=
      {| Name := bundle.Name b; Version := bundle.Version b; Home := "";
         URLs := [u]; Description := ""; Keywords := []; Maintainers := [];
         Entry_APIVersion := APIVersionV1; Digest := hash; Added := now |} in
    let index' := Add index entry in
    let* data := lift (json_Marshal_BundleEntry env entry) in
    let tagDir := filepath_Join sys [dir; "repositories"; Name entry; "tags"] in
    do* os_MkdirAll sys tagDir in
    do* ioutil_WriteFile sys (filepath_Join sys [tagDir; Version entry]) data in
    ret index'.

Fixpoint generateLoop (dir baseURL : string) (bundles : list string)
  (index : IndexFile) : M IndexFile :=
  match bundles with
  | [] => ret index
  | bundleFile :: rest =>
      let* index' := generateOne dir baseURL index bundleFile in
      generateLoop dir baseURL rest index'
  end.

Definition GenerateFromDirectory (dir baseURL : string) : M unit :=
  let* bundles := filepath_Glob sys (filepath_Join sys [dir; "*.json"]) in
  let* moreBundles := filepath_Glob sys (filepath_Join sys [dir; "**/*.json"]) in
  let* now := time_Now sys in
  let* index := generateLoop dir baseURL (bundles ++ moreBundles) (NewIndexFile now) in
  WriteFile (SortEntries index) (filepath_Join sys [dir; IndexPath]).

End Catalog.

End repo.

(** ** Package store: the local content store *)
Module store.

(** *** What [fmt.Sprintf("%v", bf)] prints for a [*bundle.Bundle]

    The default format of a pointer to a struct is [&] followed by the
    fields between braces, separated by blanks; strings are printed as they
    are, slices between brackets and maps as [map[key:value ...]]. *)
Definition fmt_v_LocationRef (r : bundle.LocationRef) : string :=
  "{" +:+ bundle.LocationRef_Path r +:+ " " +:+ bundle.Field r +:+ "}".

Definition fmt_v_Image (i : bundle.Image) : string :=
  "{" +:+ bundle.Image_Name i +:+ " " +:+ bundle.URI i +:+ " "
  +:+ fmt_v_strings (map fmt_v_LocationRef (bundle.Refs i)) +:+ "}".

(** The keys come in the order of the association list (the order of the
    keys since Go 1.12). *)
Definition fmt_v_map {V : Type} (f : V -> string) (m : list (string * V)) : string :=
  "map[" +:+ join_blank (map (fun kv => fst kv +:+ ":" +:+ f (snd kv)) m) +:+ "]".

Definition fmt_v_ParameterDefinition (p : bundle.ParameterDefinition) : string :=
  match p with bundle.ParameterDefinition_text repr => repr end.

Definition fmt_v_CredentialLocation (c : bundle.CredentialLocation) : string :=
  "{" +:+ bundle.Path c +:+ " " +:+ bundle.EnvironmentVariable c +:+ "}".

Definition fmt_v_Bundle (bf : bundle.Bundle) : string :=
  "&{" +:+ bundle.Name bf +:+ " " +:+ bundle.Version bf +:+ " "
  +:+ "{" +:+ bundle.ImageType (bundle.InvocationImage_ bf) +:+ " "
          +:+ bundle.InvocationImage_Image (bundle.InvocationImage_ bf) +:+ "}" +:+ " "
  +:+ fmt_v_strings (map fmt_v_Image (bundle.Images bf)) +:+ " "
  +:+ fmt_v_map fmt_v_ParameterDefinition (bundle.Parameters bf) +:+ " "
  +:+ fmt_v_map fmt_v_CredentialLocation (bundle.Credentials bf) +:+ "}".

Definition newline : string := String "010"%char "".

(** What the signature and digest packages and the home directory answer;
    a key ring is the list of its keys. *)
Record Env (Key : Type) : Type := {
  SecretKeyRing : string;
  Bundles : string;
  LoadKeyRing : World -> string -> error + list Key;
  KeyRing_Key : list Key -> string -> error + Key;
  (** [sign.Clearsign(bf)]: the data and the error it returns *)
  Clearsign : Key -> bundle.Bundle -> string * option error;
  digest_OfBuffer : string -> error + string;
}.

Arguments SecretKeyRing {Key} _.
Arguments Bundles {Key} _.
Arguments LoadKeyRing {Key} _ _ _.
Arguments KeyRing_Key {Key} _ _ _.
Arguments Clearsign {Key} _ _ _.
Arguments digest_OfBuffer {Key} _ _.

Section LocalStore.
Context (sys : OS) {Key : Type} (env : Env Key).

(** The last line: [return d, ioutil.WriteFile(filepath.Join(ls.Home.Bundles(), d), data, 0644)] *)
Definition writeUnder (d data : string) (w : World) : (string * option error) * World :=
  match ioutil_WriteFile sys (filepath_Join sys [Bundles env; d]) data w with
  | (inl err, w') => ((d, Some err), w')
  | (inr _, w') => ((d, None), w')
  end.

(** [signAndWriteBundle] returns the digest and the error. *)
Definition signAndWriteBundle (bf : bundle.Bundle) (insecure : bool) (signer : string)
  (w : World) : (string * option error) * World :=
  if insecure then
    let data := fmt_v_Bundle bf in
    match digest_OfBuffer env data with
    | inl err =>
        (("", Some (fmt_Errorf ("cannot compute digest from bundle: " +:+ error_msg err))), w)
    | inr d =>
        let data := fmt_v_Bundle bf in
        writeUnder d data w
    end
  else
    match LoadKeyRing env w (SecretKeyRing env) with
    | inl err => (("", Some (fmt_Errorf ("cannot load keyring: " +:+ error_msg err))), w)
    | inr kr =>
        match kr with
        | [] => (("", Some (errors_New "no signing keys are present in the keyring")), w)
        | first :: _ =>
            match (if negb (String.eqb signer "") then KeyRing_Key env kr signer
                   else inr first) with
            | inl err => (("", Some err), w)
            | inr key =>
                let data := fst (Clearsign env key bf) +:+ newline in
                match snd (Clearsign env key bf) with
                | Some err =>
                    (("", Some (fmt_Errorf ("cannot sign bundle: " +:+ error_msg err))), w)
                | None =>
                    match digest_OfBuffer env data with
                    | inl err =>
                        (("", Some (fmt_Errorf ("cannot compute digest from bundle: "
                                                +:+ error_msg err))), w)
                    | inr d => writeUnder d data w
                    end
                end
            end
        end
    end.

End LocalStore.

End store.

(** ** Image references (github.com/docker/distribution/reference)

    The library is not part of the repository. A parsed reference is kept
    as its components; a reference is tagged when it has a tag, and name
    only when it has neither tag nor digest. *)
Module reference.

Record Named : Type := {
  Domain : string;
  Path : string;
  tag : option string;
  digest : option string;
}.

Definition IsNameOnly (r : Named) : bool :=
  match tag r, digest r with
  | None, None => true
  | _, _ => false
  end.

Definition WithTag (r : Named) (t : string) : Named :=
  {| Domain := Domain r; Path := Path r; tag := Some t; digest := digest r |}.

Definition Tag (r : Named) : string := default "" (tag r).

Definition String_ (r : Named) : string :=
  (if String.eqb (Domain r) "" then Path r else Domain r +:+ "/" +:+ Path r)
  +:+ match tag r with Some t => ":" +:+ t | None => "" end
  +:+ match digest r with Some d => "@" +:+ d | None => "" end.

End reference.

(** ** Package main: the install command *)
Module main.

Record Response : Type := {
  StatusCode : nat;
  Body : string;
}.

Definition StatusOK : nat := 200.

Definition nl : string := String "010"%char "".

Definition tab : string := String "009"%char "".

(** [%d] *)
Definition fmt_d (n : nat) : string := NilEmpty.string_of_uint (Nat.to_uint n).

(** The flags of the command. *)
Record Flags : Type := {
  installDriver : string;
  credentialsFile : string;
  valuesFile : string;
  bundleFile : string;
}.

(** What the collaborators of the command answer: the home directory, the
    reference parser, the network, the decoders, the driver registry, the
    credential loader, package claim, the install action and the claim
    store. [Install_Run] receives the claim by pointer and returns the
    claim as the action left it. *)
Record Env (Driver Credentials : Type) : Type := {
  DefaultRepository : string;
  Cache : string;
  ParseNormalizedNamed : string -> error + reference.Named;
  Get : World -> string -> error + Response;
  decode_BundleEntry : string -> error + repo.BundleEntry;
  bundle_ParseReader : string -> error + bundle.Bundle;
  json_Marshal_Bundle : bundle.Bundle -> error + string;
  loader_decode : string -> error + bundle.Bundle;
  prepareDriver : string -> error + Driver;
  loadCredentials : World -> string -> error + Credentials;
  claim_New : string -> error + claim.Claim;
  toml_Unmarshal : string -> error + list (string * claim.any);
  json_Unmarshal : string -> error + list (string * claim.any);
  Install_Run : World -> Driver -> claim.Claim -> Credentials -> claim.Claim * option error;
  Store_err : World -> claim.Claim -> option error;
}.

Arguments DefaultRepository {Driver Credentials} _.
Arguments Cache {Driver Credentials} _.
Arguments ParseNormalizedNamed {Driver Credentials} _ _.
Arguments Get {Driver Credentials} _ _ _.
Arguments decode_BundleEntry {Driver Credentials} _ _.
Arguments bundle_ParseReader {Driver Credentials} _ _.
Arguments json_Marshal_Bundle {Driver Credentials} _ _.
Arguments loader_decode {Driver Credentials} _ _.
Arguments prepareDriver {Driver Credentials} _ _.
Arguments loadCredentials {Driver Credentials} _ _ _.
Arguments claim_New {Driver Credentials} _ _.
Arguments toml_Unmarshal {Driver Credentials} _ _.
Arguments json_Unmarshal {Driver Credentials} _ _.
Arguments Install_Run {Driver Credentials} _ _ _ _ _.
Arguments Store_err {Driver Credentials} _ _ _.

Section Install.
Context (sys : OS) {Driver Credentials : Type} (env : Env Driver Credentials).

(** [http.Get(url)] *)
Definition http_Get (url : string) : M Response :=
  fun w => (Get env w url, add_request url w).

(** [bundle.WriteFile] *)
Definition bundle_WriteFile (b : bundle.Bundle) (dest : string) : M unit :=
  let* d := lift (json_Marshal_Bundle env b) in
  ioutil_WriteFile sys dest d.

(** The first lines of [getBundleFile]: protocol and name. *)
Definition splitProto (bundleName : string) : string * string :=
  match strings.SplitN2 bundleName "://" with
  | [p0; p1] => (p0, p1)
  | parts => ("https", hd "" parts)
  end.

(** The reference with its tag, or the error for a reference that is
    neither name only nor tagged. *)
Definition taggedRef (name : string) : error + reference.Named :=
  match ParseNormalizedNamed env name with
  | inl err =>
      inl (fmt_Errorf ("failed to parse image name: " +:+ name +:+ ": " +:+ error_msg err))
  | inr normalizedRef =>
      if reference.IsNameOnly normalizedRef
      then inr (reference.WithTag normalizedRef "latest")
      else
        match reference.tag normalizedRef with
        | Some _ => inr normalizedRef
        | None =>
            inl (fmt_Errorf ("unsupported image name: " +:+ reference.String_ normalizedRef))
        end
  end.

(** [fmt.Sprintf("%s://%s/repositories/%s/tags/%s", ...)] after the
    default repository has been put in for an empty domain. *)
Definition lookupURL (proto : string) (ref : reference.Named) : string :=
  let domain :=
    if String.eqb (reference.Domain ref) "" then DefaultRepository env
    else reference.Domain ref in
  proto +:+ "://" +:+ domain +:+ "/repositories/" +:+ reference.Path ref
        +:+ "/tags/" +:+ reference.Tag ref.

Definition non200 (url : string) (code : nat) : string :=
  "request to " +:+ url +:+ " responded with a non-200 status code: " +:+ fmt_d code.

(** The loop over [entry.URLs]. *)
Fixpoint fetchMirrors (entry : repo.BundleEntry) (urls : list string) : M string :=
  match urls with
  | [] =>
      fail (fmt_Errorf ("unable to fetch " +:+ repo.Name entry +:+ " " +:+ repo.Version entry
                        +:+ ": no requests to the following URLs succeeded: "
                        +:+ fmt_v_strings (repo.URLs entry)))
  | url :: rest =>
      let* resp := http_Get url in
      if negb (StatusCode resp =? StatusOK)
      then do* act (add_log (non200 url (StatusCode resp))) in
           fetchMirrors entry rest
      else
        let* b := lift (bundle_ParseReader env (Body resp)) in
        let bundleFilepath :=
          filepath_Join sys [Cache env; bundle.Name b +:+ "-" +:+ bundle.Version b +:+ ".json"] in
        do* bundle_WriteFile b bundleFilepath in
        ret bundleFilepath
  end.

Definition getBundleFile (bundleName : string) : M string :=
  let proto := fst (splitProto bundleName) in
  let name := snd (splitProto bundleName) in
  let* ref := lift (taggedRef name) in
  let url := lookupURL proto ref in
  let* resp := http_Get url in
  if negb (StatusCode resp =? StatusOK)
  then fail (fmt_Errorf (non200 url (StatusCode resp)))
  else
    let* entry := lift (decode_BundleEntry env (Body resp)) in
    fetchMirrors entry (repo.URLs entry).

Definition bundleFileOrArg2 (args : list string) (bundleFile : string) : M string :=
  if length args <? 1 then
    fail (errors_New ("This command requires at least one argument: NAME (name for the installation). It also requires a BUNDLE (CNAB bundle name) or file (using -f)"
                      +:+ nl +:+ "Valid inputs:"
                      +:+ nl +:+ tab +:+ "$ duffle install NAME BUNDLE"
                      +:+ nl +:+ tab +:+ "$ duffle install NAME -f path-to-bundle.json"))
  else if (length args =? 2) && negb (String.eqb bundleFile "") then
    fail (errors_New "please use either -f or specify a BUNDLE, but not both")
  else if (length args <? 2) && String.eqb bundleFile "" then
    fail (errors_New "required arguments are NAME (name of the installation) and BUNDLE (CNAB bundle name) or file")
  else if length args =? 2 then
    getBundleFile (nth 1 args "")
  else ret bundleFile.

Definition validateDockerish (s : string) : option error :=
  if negb (strings.Contains s ":") then Some (errors_New "version is required")
  else None.

Definition validateImage (img : bundle.InvocationImage) : option error :=
  if String.eqb (bundle.ImageType img) "docker" || String.eqb (bundle.ImageType img) "oci"
  then validateDockerish (bundle.InvocationImage_Image img)
  else None.

Definition parseValues (file : string) : M (list (string * claim.any)) :=
  let ext := filepath_Ext sys file in
  if String.eqb ext ".toml" then
    let* data := ioutil_ReadFile file in
    lift (toml_Unmarshal env data)
  else if String.eqb ext ".json" then
    let* data := ioutil_ReadFile file in
    lift (json_Unmarshal env data)
  else fail (errors_New ("no decoder for " +:+ ext)).

Definition loadBundle (bundleFile : string) : M bundle.Bundle :=
  let* data := ioutil_ReadFile bundleFile in
  lift (loader_decode env data).

Definition check (e : option error) : M unit :=
  match e with
  | Some err => fail err
  | None => ret tt
  end.

(** [RunE] of the install command up to the construction of the claim:
    the driver, the credentials and the claim it hands to the action. *)
Definition prepare (args : list string) (fl : Flags)
  : M (Driver * Credentials * claim.Claim) :=
  let* bundleFile := bundleFileOrArg2 args (bundleFile fl) in
  let installationName := nth 0 args "" in
  let* bun := loadBundle bundleFile in
  do* check (validateImage (bundle.InvocationImage_ bun)) in
  let* driverImpl := lift (prepareDriver env (installDriver fl)) in
  let* creds := (fun w => (loadCredentials env w (credentialsFile fl), w)) in
  let* c := lift (claim_New env installationName) in
  let c1 := claim.set_Bundle c (bundle.InvocationImage_Image (bundle.InvocationImage_ bun)) in
  let c2 := claim.set_ImageType c1 (bundle.ImageType (bundle.InvocationImage_ bun)) in
  let* c3 :=
    (if negb (String.eqb (valuesFile fl) "")
     then let* vals := parseValues (valuesFile fl) in
          ret (claim.set_Parameters c2 vals)
     else ret c2) in
  ret (driverImpl, creds, c3).

(** [claimStorage().Store( *c )]: the call is recorded, its error returned. *)
Definition claimStorage_Store (c : claim.Claim) (w : World) : option error * World :=
  (Store_err env w c, add_stored c w).

(** The last lines of [RunE]: run the action, store the claim, report. *)
Definition execute (driverImpl : Driver) (creds : Credentials) (c : claim.Claim)
  : M unit :=
  fun w0 =>
    let w := add_stdout "Executing install action..." w0 in
    let c' := fst (Install_Run env w driverImpl c creds) in
    let err := snd (Install_Run env w driverImpl c creds) in
    let err2 := fst (claimStorage_Store c' w) in
    let w' := snd (claimStorage_Store c' w) in
    match err with
    | Some e => (inl (fmt_Errorf ("Install step failed: " +:+ error_msg e)), w')
    | None =>
        match err2 with
        | Some e2 => (inl e2, w')
        | None => (inr tt, w')
        end
    end.

(** [RunE] of [newInstallCmd]; [inl err] is the error it returns. *)
Definition install (args : list string) (fl : Flags) : M unit :=
  let* p := prepare args fl in
  execute (fst (fst p)) (snd (fst p)) (snd p).

End Install.

End main.

(** ** The canonical order of an entry list *)
Module order.

Section Order.
Context {L : semver.Lib}.

Definition parsed (e : repo.BundleEntry) : option semver.Version :=
  semver.NewVersion (repo.Version e).

Definition unparsable (e : repo.BundleEntry) : bool :=
  match parsed e with
  | None => true
  | Some _ => false
  end.

(** [before e e'] : [e] may stand somewhere before [e'] in a list sorted
    descending by parsed version with the unparsable versions last. *)
Definition before (e e' : repo.BundleEntry) : bool :=
  match parsed e, parsed e' with
  | _, None => true
  | None, Some _ => false
  | Some v, Some v' => negb (semver.LessThan v v')
  end.

Fixpoint canonical (l : list repo.BundleEntry) : Prop :=
  match l with
  | [] => True
  | e :: rest => Forall (fun e' => before e e' = true) rest /\ canonical rest
  end.

(** What [BundleEntries.Less] answers for two entries. *)
Definition lessv (ea eb : repo.BundleEntry) : bool :=
  match parsed ea with
  | None => true
  | Some i =>
      match parsed eb with
      | None => false
      | Some j => semver.LessThan i j
      end
  end.

(** The entry's version parses and compares equal to [v]. *)
Definition versionIs (v : semver.Version) (e : repo.BundleEntry) : bool :=
  match parsed e with
  | Some t => semver.Equal t v
  | None => false
  end.

End Order.

End order.

(** The globbed files the generator does not pass over. *)
Definition tracked (bundleFile : string) : bool :=
  negb (strings.HasSuffix bundleFile "index.json").

(** ** Concrete catalogs for the examples *)
Module sample.

Definition entry (name version digest : string) : repo.BundleEntry :=
  {| repo.Name := name; repo.Version := version; repo.Home := "";
     repo.URLs := []; repo.Description := ""; repo.Keywords := [];
     repo.Maintainers := []; repo.Entry_APIVersion := repo.APIVersionV1;
     repo.Digest := digest; repo.Added := 0 |}.

Definition index (entries : list (string * list repo.BundleEntry)) : repo.IndexFile :=
  {| repo.APIVersion := repo.APIVersionV1; repo.Generated := 0;
     repo.Entries := list_to_map entries; repo.PublicKeys := [] |}.

(** Two releases of "foo" in canonical order. *)
Definition foo_120 : repo.BundleEntry := entry "foo" "1.2.0" "d120".

Definition foo_123 : repo.BundleEntry := entry "foo" "1.2.3" "d123".

Definition releases : repo.IndexFile := index [("foo", [foo_123; foo_120])].

(** Two entries of "foo" whose versions are not semantic versions. *)
Definition foo_latest : repo.BundleEntry := entry "foo" "latest" "d1".

Definition foo_edge : repo.BundleEntry := entry "foo" "edge" "d2".

Definition unversioned : repo.IndexFile := index [("foo", [foo_latest; foo_edge])].

(** A catalog and a second one that carries the same name and version
    under another digest. *)
Definition local : repo.IndexFile := index [("foo", [foo_latest])].

Definition foo_latest' : repo.BundleEntry := entry "foo" "latest" "d3".

Definition remote : repo.IndexFile := index [("foo", [foo_latest'])].

(** An operating system on which every write succeeds; paths are joined
    with a slash and the clock stands at 0. *)
Fixpoint join_slash (l : list string) : string :=
  match l with
  | [] => ""
  | [s] => s
  | s :: rest => s +:+ "/" +:+ join_slash rest
  end.

Definition sys : OS :=
  {| WriteFile_err := fun _ _ => None;
     MkdirAll_err := fun _ _ => None;
     Glob := fun _ _ => inr [];
     filepath_Join := join_slash;
     filepath_Rel := fun _ path => inr path;
     filepath_Split := fun path => ("", path);
     filepath_Ext := fun _ => "";
     URLJoin := fun base path => inr (base +:+ "/" +:+ path);
     Now := fun _ => 0 |}.

(** The index document without an API version, and the zero catalog
    [json.Unmarshal] makes of it. *)
Definition no_version_doc : string := "{}".

Definition zero_index : repo.IndexFile :=
  {| repo.APIVersion := ""; repo.Generated := 0; repo.Entries := ∅; repo.PublicKeys := [] |}.

Definition repo_env : repo.Env :=
  {| repo.json_Unmarshal_IndexFile :=
       fun data => if String.eqb data no_version_doc then inr zero_index
                   else inl (errors_New "unexpected end of JSON input");
     repo.json_Marshal_IndexFile := fun _ => inr "index";
     repo.json_Marshal_BundleEntry := fun _ => inr "entry";
     repo.bundle_Unmarshal := fun _ => inl (errors_New "unexpected end of JSON input");
     repo.provenance_Digest := fun _ => "digest" |}.

(** A manifest: the bundle "bundle" 1.0.0 and the bytes [json.Marshal]
    writes for it. *)
Definition bun : bundle.Bundle :=
  {| bundle.Name := "bundle"; bundle.Version := "1.0.0";
     bundle.InvocationImage_ :=
       {| bundle.ImageType := "docker"; bundle.InvocationImage_Image := "bundle:1.0.0" |};
     bundle.Images := []; bundle.Parameters := []; bundle.Credentials := [] |}.

Definition quoted (s : string) : string := String "034"%char s +:+ String "034"%char "".

Definition manifest : string :=
  "{" +:+ quoted "name" +:+ ":" +:+ quoted "bundle" +:+ ","
  +:+ quoted "version" +:+ ":" +:+ quoted "1.0.0" +:+ ","
  +:+ quoted "invocationImage" +:+ ":{"
  +:+ quoted "imageType" +:+ ":" +:+ quoted "docker" +:+ ","
  +:+ quoted "image" +:+ ":" +:+ quoted "bundle:1.0.0" +:+ "},"
  +:+ quoted "images" +:+ ":null," +:+ quoted "parameters" +:+ ":null,"
  +:+ quoted "credentials" +:+ ":null}".

(** A stand-in for the digest: the sum of the bytes, in decimal. *)
Fixpoint byte_sum (s : string) : nat :=
  match s with
  | EmptyString => 0
  | String c rest => nat_of_ascii c + byte_sum rest
  end.

Definition checksum (data : string) : string := main.fmt_d (byte_sum data).

(** A content store with one signing key. *)
Definition store_env : store.Env string :=
  {| store.SecretKeyRing := "home/secret.ring";
     store.Bundles := "home/bundles";
     store.LoadKeyRing := fun _ _ => inr ["alice"];
     store.KeyRing_Key :=
       fun kr name => if bool_decide (name ∈ kr) then inr name
                      else inl (errors_New "key not found");
     store.Clearsign :=
       fun key _ => ("-----BEGIN PGP SIGNED MESSAGE-----" +:+ store.newline
                     +:+ manifest +:+ store.newline
                     +:+ "-----BEGIN PGP SIGNATURE-----" +:+ store.newline
                     +:+ key +:+ store.newline
                     +:+ "-----END PGP SIGNATURE-----", None);
     store.digest_OfBuffer := fun data => inr (checksum data) |}.

(** A registry that serves the index entry of name.example.org/bundle:1.0.0
    with two mirrors, and the collaborators of an install. *)
Definition lookup_url : string :=
  "https://name.example.org/repositories/bundle/tags/1.0.0".

Definition mirror1 : string := "https://mirror1.example.org/bundle-1.0.0.json".

Definition mirror2 : string := "https://mirror2.example.org/bundle-1.0.0.json".

Definition mirrored : repo.BundleEntry :=
  {| repo.Name := "bundle"; repo.Version := "1.0.0"; repo.Home := "";
     repo.URLs := [mirror1; mirror2]; repo.Description := ""; repo.Keywords := [];
     repo.Maintainers := []; repo.Entry_APIVersion := repo.APIVersionV1;
     repo.Digest := "d"; repo.Added := 0 |}.

Definition parse_ref (name : string) : error + reference.Named :=
  if String.eqb name "name.example.org/bundle:1.0.0"
  then inr {| reference.Domain := "name.example.org"; reference.Path := "bundle";
              reference.tag := Some "1.0.0"; reference.digest := None |}
  else inl (errors_New "invalid reference format").

Definition ok (body : string) : error + main.Response :=
  inr {| main.StatusCode := 200; main.Body := body |}.

Definition not_found : error + main.Response :=
  inr {| main.StatusCode := 404; main.Body := "" |}.

(** The first mirror refuses the connection, the second serves the manifest. *)
Definition net_refused (url : string) : error + main.Response :=
  if String.eqb url lookup_url then ok "entry"
  else if String.eqb url mirror1 then inl (errors_New "dial tcp: connection refused")
  else if String.eqb url mirror2 then ok manifest
  else not_found.

(** The first mirror answers 404, the second serves the manifest. *)
Definition net_missing (url : string) : error + main.Response :=
  if String.eqb url lookup_url then ok "entry"
  else if String.eqb url mirror2 then ok manifest
  else not_found.

Definition decode_bundle (body : string) : error + bundle.Bundle :=
  if String.eqb body manifest then inr bun
  else inl (errors_New "unexpected end of JSON input").

Definition env (net : string -> error + main.Response)
  (run_err store_err : option error) : main.Env string string :=
  {| main.DefaultRepository := "bundles.example.org";
     main.Cache := "home/cache";
     main.ParseNormalizedNamed := parse_ref;
     main.Get := fun _ url => net url;
     main.decode_BundleEntry :=
       fun body => if String.eqb body "entry" then inr mirrored
                   else inl (errors_New "unexpected end of JSON input");
     main.bundle_ParseReader := decode_bundle;
     main.json_Marshal_Bundle := fun _ => inr manifest;
     main.loader_decode := decode_bundle;
     main.prepareDriver := fun name => inr name;
     main.loadCredentials := fun _ file => inr file;
     main.claim_New :=
       fun name => inr {| claim.Name := name; claim.Bundle := ""; claim.ImageType := "";
                          claim.Parameters := []; claim.Result := "" |};
     main.toml_Unmarshal := fun _ => inr [];
     main.json_Unmarshal := fun _ => inr [];
     main.Install_Run := fun _ _ c _ => (c, run_err);
     main.Store_err := fun _ _ => store_err |}.

(** [duffle install my_release -f bundle.json] in a directory that holds
    the manifest. *)
Definition flags : main.Flags :=
  {| main.installDriver := "docker"; main.credentialsFile := "";
     main.valuesFile := ""; main.bundleFile := "bundle.json" |}.

Definition disk : World := set_files (<["bundle.json" := manifest]>) World_empty.

Definition my_claim : claim.Claim :=
  {| claim.Name := "my_release"; claim.Bundle := "bundle:1.0.0";
     claim.ImageType := "docker"; claim.Parameters := []; claim.Result := "" |}.

Definition boom : error := errors_New "exit status 1".

Definition disk_full : error := errors_New "no space left on device".

End sample.

(** ** Effects a computation leaves alone

    [respects R m]: whatever [m] does, the world after it is related by [R]
    to the world before it. *)
Definition respects (R : World -> World -> Prop) {A : Type} (m : M A) : Prop :=
  forall w, R w (snd (m w)).

(** No call to the claim store. *)
Definition same_stored (w w' : World) : Prop := stored w' = stored w.

(** Requests are only added. *)
Definition more_requests (w w' : World) : Prop :=
  exists more, requests w' = requests w ++ more.

(** ** Queries on an entry list *)
Module query.

Section Query.
Context {L : semver.Lib}.

(** The test of the loop of [Get]: the version parses and passes the
    constraint. *)
Definition admits (c : semver.Constraints) (e : repo.BundleEntry) : bool :=
  match order.parsed e with
  | Some v => semver.Check c v
  | None => false
  end.

(** The constraint [Get] builds for a version argument. *)
Definition constraintOf (version : string) : error + semver.Constraints :=
  if String.length version =? 0 then inr semver.Wildcard
  else semver.NewConstraint version.

(** The version string of the entry is a constraint that admits exactly
    the versions equal to the entry's own. *)
Definition exactVersion (e : repo.BundleEntry) : Prop :=
  repo.Version e <> ""
  /\ exists c v, semver.NewConstraint (repo.Version e) = inr c
                 /\ order.parsed e = Some v /\ semver.exact c v.

(** The entries filed under a name; none when the name is no key. *)
Definition under (i : repo.IndexFile) (name : string) : list repo.BundleEntry :=
  default [] (repo.Entries i !! name).

End Query.

End query.

(** ** More concrete inputs *)
Module sample2.

(** A second catalog for "foo": release 1.2.0 under another digest and a
    new release 2.0.0. *)
Definition foo_120' : repo.BundleEntry := sample.entry "foo" "1.2.0" "other".

Definition foo_200 : repo.BundleEntry := sample.entry "foo" "2.0.0" "d200".

Definition incoming : list (list repo.BundleEntry) := [[foo_120'; foo_200]].

(** A repository directory with one manifest, and encoders that can
    read it. *)
Definition repo_env : repo.Env :=
  {| repo.json_Unmarshal_IndexFile := repo.json_Unmarshal_IndexFile sample.repo_env;
     repo.json_Marshal_IndexFile := fun _ => inr "index";
     repo.json_Marshal_BundleEntry := fun _ => inr "entry";
     repo.bundle_Unmarshal := sample.decode_bundle;
     repo.provenance_Digest := sample.checksum |}.

Definition repo_dir : World :=
  set_files (<["repo/bundle.json" := sample.manifest]>) World_empty.

End sample2.

(** ** pkg/repo/repo.go: the generator that keeps no index

    The same walk over the globbed files, without the test for
    "index.json", without an index, and without the final index file. *)
Module repo_tags.

Section Generator.
Context (sys : OS) (env : repo.Env).

Definition generateOne (dir baseURL : string) (bundleFile : string) : M unit :=
  let* b := repo.loader_Load env bundleFile in
  let* rel := lift (filepath_Rel sys dir bundleFile) in
  let parentDir := fst (filepath_Split sys rel) in
  let fname := snd (filepath_Split sys rel) in
  let parentURL :=
    match URLJoin sys baseURL parentDir with
    | inr u => u
    | inl _ => filepath_Join sys [baseURL; parentDir]
    end in
  let* hash := repo.provenance_DigestFile env bundleFile in
  do* act (add_stdout ("adding " +:+ bundle.Name b +:+ " " +:+ bundle.Version b)) in
  let u :=
    if String.eqb parentURL "" then fname
    else
      let file := snd (filepath_Split sys fname) in
      match URLJoin sys parentURL file with
      | inr u' => u'
      | inl _ => filepath_Join sys [parentURL; file]
      end in
  let* now := time_Now sys in
  let entry :=
    {| repo.Name := bundle.Name b; repo.Version := bundle.Version b; repo.Home := "";
       repo.URLs := [u]; repo.Description := ""; repo.Keywords := [];
       repo.Maintainers := []; repo.Entry_APIVersion := repo.APIVersionV1;
       repo.Digest := hash; repo.Added := now |} in
  let* data := lift (repo.json_Marshal_BundleEntry env entry) in
  let tagDir := filepath_Join sys [dir; "repositories"; repo.Name entry; "tags"] in
  do* os_MkdirAll sys tagDir in
  ioutil_WriteFile sys (filepath_Join sys [tagDir; repo.Version entry]) data.

Fixpoint generateLoop (dir baseURL : string) (bundles : list string) : M unit :=
  match bundles with
  | [] => ret tt
  | bundleFile :: rest =>
      do* generateOne dir baseURL bundleFile in
      generateLoop dir baseURL rest
  end.

Definition GenerateFromDirectory (dir baseURL : string) : M unit :=
  let* bundles := filepath_Glob sys (filepath_Join sys [dir; "*.json"]) in
  let* moreBundles := filepath_Glob sys (filepath_Join sys [dir; "**/*.json"]) in
  generateLoop dir baseURL (bundles ++ moreBundles).

End Generator.

End repo_tags.

(** Two outcomes agree: the same error, or both a success. *)
Definition same_outcome {A B : Type} (r1 : error + A) (r2 : error + B) : Prop :=
  match r1, r2 with
  | inl e1, inl e2 => e1 = e2
  | inr _, inr _ => True
  | _, _ => False
  end.

(** No request, no file written, nothing logged. *)
Definition quiet (w w' : World) : Prop :=
  requests w' = requests w /\ files w' = files w /\ logs w' = logs w.

(** The install action was not announced and the claim store not called. *)
Definition no_action (w w' : World) : Prop :=
  stored w' = stored w /\ stdout w' = stdout w.

(** The world is as it was. *)
Definition untouched (w w' : World) : Prop := w' = w.

(** Encoders that undo each other on the zero catalog. *)
Definition round_trip_env : repo.Env :=
  {| repo.json_Unmarshal_IndexFile := repo.json_Unmarshal_IndexFile sample.repo_env;
     repo.json_Marshal_IndexFile := fun _ => inr sample.no_version_doc;
     repo.json_Marshal_BundleEntry := fun _ => inr "entry";
     repo.bundle_Unmarshal := sample.decode_bundle;
     repo.provenance_Digest := sample.checksum |}.

(** * Properties *)

(** ** The semantic-version fragment obeys the laws *)

Lemma lt3_spec (a b : nat * nat * nat) :
  semver3.lt3 a b = true <->
  (a.1.1 < b.1.1 \/ (a.1.1 = b.1.1 /\ (a.1.2 < b.1.2 \/ (a.1.2 = b.1.2 /\ a.2 < b.2)))).
Proof.
  destruct a as [[a1 a2] a3], b as [[b1 b2] b3]; unfold semver3.lt3; simpl.
  repeat (rewrite orb_true_iff || rewrite andb_true_iff
          || rewrite Nat.ltb_lt || rewrite Nat.eqb_eq).
  reflexivity.
Qed.

Lemma lt3_asym (a b : nat * nat * nat) :
  semver3.lt3 a b = true -> semver3.lt3 b a = false.
Proof.
  intros H. apply not_true_iff_false. rewrite lt3_spec in *. lia.
Qed.

Lemma lt3_negtrans (a b c : nat * nat * nat) :
  semver3.lt3 a b = false -> semver3.lt3 b c = false -> semver3.lt3 a c = false.
Proof.
  intros H1 H2. apply not_true_iff_false in H1, H2. apply not_true_iff_false.
  rewrite lt3_spec in *. lia.
Qed.

Lemma semver3_order : semver.Order semver3.lib.
Proof.
  split.
  - exact lt3_asym.
  - exact lt3_negtrans.
Qed.

Lemma semver3_laws : semver.Laws semver3.lib.
Proof.
  split.
  - exact semver3_order.
  - reflexivity.
  - reflexivity.
Qed.

(** ** The prelude on examples *)

Example HasSuffix_json : strings.HasSuffix "bundle.json" ".json" = true.
Proof. reflexivity. Qed.

Example HasSuffix_short : strings.HasSuffix "x.json" "index.json" = false.
Proof. reflexivity. Qed.

Example SplitN2_proto :
  strings.SplitN2 "http://name.example.org/bundle:1.0.0" "://"
  = ["http"; "name.example.org/bundle:1.0.0"].
Proof. reflexivity. Qed.

Example SplitN2_none :
  strings.SplitN2 "name.example.org/bundle:1.0.0" "://" = ["name.example.org/bundle:1.0.0"].
Proof. reflexivity. Qed.

Example parse_full : semver3.parse "1.12.3" = Some (1, 12, 3).
Proof. reflexivity. Qed.

Example parse_word : semver3.parse "latest" = None.
Proof. reflexivity. Qed.

Example fmt_d_404 : main.fmt_d 404 = "404".
Proof. reflexivity. Qed.

(** ** Sorting an entry list *)
Section SortFacts.
Context {L : semver.Lib} {HO : semver.Order L}.

Local Abbreviation RI := (sort.Reverse repo.BundleEntries_Interface).

Lemma lookup_second (pre : list repo.BundleEntry) y x suf :
  (pre ++ y :: x :: suf) !! S (length pre) = Some x.
Proof. induction pre as [|a pre IH]; simpl; auto. Qed.

Lemma Less_at (pre : list repo.BundleEntry) y x suf :
  repo.BundleEntries_Less (pre ++ y :: x :: suf) (length pre) (S (length pre))
  = order.lessv y x.
Proof.
  unfold repo.BundleEntries_Less.
  rewrite lookup_second.
  rewrite list_lookup_middle by reflexivity. reflexivity.
Qed.

Lemma Swap_at (pre : list repo.BundleEntry) y x suf :
  repo.BundleEntries_Swap (pre ++ y :: x :: suf) (S (length pre)) (length pre)
  = pre ++ x :: y :: suf.
Proof.
  unfold repo.BundleEntries_Swap.
  rewrite lookup_second.
  rewrite list_lookup_middle by reflexivity.
  induction pre as [|a pre IH]; simpl; [reflexivity|].
  f_equal. exact IH.
Qed.

Lemma canonical_snoc (l : list repo.BundleEntry) y :
  order.canonical (l ++ [y])
  <-> order.canonical l /\ Forall (fun e => order.before e y = true) l.
Proof.
  induction l as [|a l IH]; simpl.
  - split; [intros _|]; auto.
  - rewrite Forall_app, Forall_singleton, IH, Forall_cons. tauto.
Qed.

Lemma before_of_less y x : order.lessv y x = true -> order.before x y = true.
Proof.
  unfold order.lessv, order.before.
  destruct (order.parsed y) as [i|]; [|destruct (order.parsed x); reflexivity].
  destruct (order.parsed x) as [j|]; [|discriminate].
  intros H. apply semver.LessThan_asym in H. rewrite H. reflexivity.
Qed.

Lemma before_of_not_less y x :
  order.lessv y x = false -> order.before y x = true /\ order.unparsable y = false.
Proof.
  unfold order.lessv, order.before, order.unparsable.
  destruct (order.parsed y) as [i|]; [|discriminate].
  destruct (order.parsed x) as [j|]; [|auto].
  intros ->. auto.
Qed.

Lemma before_trans e y x :
  order.before e y = true -> order.unparsable y = false ->
  order.before y x = true -> order.before e x = true.
Proof.
  unfold order.before, order.unparsable.
  destruct (order.parsed y) as [i|]; [|discriminate].
  destruct (order.parsed e) as [k|]; [|discriminate].
  destruct (order.parsed x) as [j|]; [|reflexivity].
  rewrite !negb_true_iff. intros H1 _ H2.
  eapply semver.LessThan_negtrans; eauto.
Qed.

(** One pass of the inner loop puts the entry at position [length pre]
    into the sorted prefix. *)
Lemma inner_spec (pre : list repo.BundleEntry) : forall x suf,
  order.canonical pre ->
  exists l', sort.insertionInner RI 0 (length pre) (pre ++ x :: suf) = l' ++ suf
             /\ l' ≡ₚ pre ++ [x] /\ order.canonical l'.
Proof.
  induction pre as [|y pre IH] using rev_ind; intros x suf Hc.
  - exists [x]. simpl. auto.
  - apply canonical_snoc in Hc as [Hc Hy].
    rewrite length_app, Nat.add_1_r. simpl.
    rewrite <- !app_assoc. simpl.
    rewrite Less_at.
    destruct (order.lessv y x) eqn:Hless.
    + rewrite Swap_at.
      destruct (IH x (y :: suf) Hc) as (l' & Heq & Hp & Hc').
      exists (l' ++ [y]). rewrite Heq, <- app_assoc. split; [reflexivity|]. split.
      * rewrite Hp, <- !app_assoc. apply Permutation_app_head, perm_swap.
      * apply canonical_snoc. split; [exact Hc'|].
        rewrite Hp, Forall_app, Forall_singleton. split; [exact Hy|].
        apply before_of_less, Hless.
    + exists (pre ++ [y] ++ [x]). rewrite <- !app_assoc. split; [reflexivity|].
      split; [reflexivity|].
      apply before_of_not_less in Hless as [Hb Hp].
      rewrite app_assoc. apply canonical_snoc. split.
      * apply canonical_snoc; auto.
      * rewrite Forall_app, Forall_singleton. split; [|exact Hb].
        eapply Forall_impl; [exact Hy|]. simpl. intros e He.
        eapply before_trans; eauto.
Qed.

Lemma outer_spec (suf : list repo.BundleEntry) : forall pre,
  order.canonical pre ->
  exists l', fold_left (fun d i => sort.insertionInner RI 0 i d)
                       (seq (length pre) (length suf)) (pre ++ suf) = l'
             /\ l' ≡ₚ pre ++ suf /\ order.canonical l'.
Proof.
  induction suf as [|x suf IH]; intros pre Hc.
  - exists pre. simpl. rewrite app_nil_r. auto.
  - simpl. destruct (inner_spec pre x suf Hc) as (l1 & Heq & Hp & Hc1).
    rewrite Heq.
    assert (Hlen : S (length pre) = length l1).
    { rewrite Hp, length_app, Nat.add_1_r. reflexivity. }
    rewrite Hlen.
    destruct (IH l1 Hc1) as (l' & Heq' & Hp' & Hc').
    exists l'. split; [exact Heq'|]. split; [|exact Hc'].
    rewrite Hp', Hp, <- app_assoc. reflexivity.
Qed.

(** [sort.Sort(sort.Reverse(versions))] rearranges the list into the
    canonical order. *)
Lemma Sort_canonical (l : list repo.BundleEntry) :
  sort.Sort RI l ≡ₚ l /\ order.canonical (sort.Sort RI l).
Proof.
  unfold sort.Sort, sort.insertionSort. simpl.
  destruct l as [|x suf]; [simpl; auto|].
  simpl. rewrite Nat.sub_0_r.
  destruct (outer_spec suf [x]) as (l' & Heq & Hp & Hc).
  { simpl. auto. }
  simpl in Heq. rewrite Heq. auto.
Qed.

Lemma lessv_steady y x :
  order.unparsable y = false -> order.before y x = true -> order.lessv y x = false.
Proof.
  unfold order.lessv, order.before, order.unparsable.
  destruct (order.parsed y) as [i|]; [|discriminate].
  destruct (order.parsed x) as [j|]; [|reflexivity].
  rewrite negb_true_iff. auto.
Qed.

Lemma canonical_app_r (l1 l2 : list repo.BundleEntry) :
  order.canonical (l1 ++ l2) -> order.canonical l2.
Proof. induction l1 as [|a l1 IH]; simpl; [auto|]. intros [_ H]. auto. Qed.

Lemma inner_steady (pre : list repo.BundleEntry) x suf :
  order.canonical (pre ++ x :: suf) ->
  length (List.filter order.unparsable (pre ++ x :: suf)) <= 1 ->
  sort.insertionInner RI 0 (length pre) (pre ++ x :: suf) = pre ++ x :: suf.
Proof.
  destruct pre as [|y pre _] using rev_ind; [reflexivity|].
  intros Hc Hn.
  rewrite length_app, Nat.add_1_r. simpl.
  rewrite <- !app_assoc in *. simpl in *.
  rewrite Less_at.
  apply canonical_app_r in Hc. simpl in Hc. destruct Hc as [Hy _].
  apply Forall_cons in Hy as [Hyx _].
  rewrite lessv_steady; [reflexivity| |exact Hyx].
  destruct (order.unparsable y) eqn:Uy; [|reflexivity].
  assert (Ux : order.unparsable x = true).
  { revert Hyx Uy. unfold order.before, order.unparsable.
    destruct (order.parsed y); [discriminate|].
    destruct (order.parsed x); [discriminate|reflexivity]. }
  rewrite List.filter_app, length_app in Hn. simpl in Hn.
  rewrite Uy, Ux in Hn. simpl in Hn. lia.
Qed.

Lemma outer_steady (suf : list repo.BundleEntry) : forall pre,
  order.canonical (pre ++ suf) ->
  length (List.filter order.unparsable (pre ++ suf)) <= 1 ->
  fold_left (fun d i => sort.insertionInner RI 0 i d)
            (seq (length pre) (length suf)) (pre ++ suf) = pre ++ suf.
Proof.
  induction suf as [|x suf IH]; intros pre Hc Hn; [reflexivity|].
  simpl. rewrite inner_steady by assumption.
  specialize (IH (pre ++ [x])).
  rewrite length_app, Nat.add_1_r, <- app_assoc in IH. simpl in IH. auto.
Qed.

(** A list in canonical order with at most one unparsable version is left
    as it is. *)
Lemma Sort_steady (l : list repo.BundleEntry) :
  order.canonical l -> length (List.filter order.unparsable l) <= 1 ->
  sort.Sort RI l = l.
Proof.
  intros Hc Hn. unfold sort.Sort, sort.insertionSort. simpl.
  destruct l as [|x suf]; [reflexivity|].
  simpl. rewrite Nat.sub_0_r.
  exact (outer_steady suf [x] Hc Hn).
Qed.

Lemma unparsable_count_perm (l l' : list repo.BundleEntry) :
  l ≡ₚ l' ->
  length (List.filter order.unparsable l) = length (List.filter order.unparsable l').
Proof.
  induction 1; simpl; auto.
  - destruct (order.unparsable x); simpl; auto.
  - destruct (order.unparsable x), (order.unparsable y); simpl; auto.
  - congruence.
Qed.

(** C4 (amended). After [SortEntries] the list under every name is a
    rearrangement of what it was, in descending order of parsed semantic
    version with the entries whose version does not parse after all the
    others; names without entries stay without. A second [SortEntries]
    leaves a list of at most twelve entries unchanged when at most one of
    its versions does not parse. *)
Theorem SortEntries_canonical (i : repo.IndexFile) (name : string) :
  (repo.Entries i !! name = None ->
   repo.Entries (repo.SortEntries i) !! name = None)
  /\ (forall vs, repo.Entries i !! name = Some vs ->
       exists vs',
         repo.Entries (repo.SortEntries i) !! name = Some vs'
         /\ vs' ≡ₚ vs
         /\ order.canonical vs'
         /\ (length vs <= 12 ->
             length (List.filter order.unparsable vs) <= 1 ->
             repo.Entries (repo.SortEntries (repo.SortEntries i)) !! name = Some vs')).
Proof.
  unfold repo.SortEntries. simpl. split.
  - intros H. rewrite lookup_fmap, H. reflexivity.
  - intros vs H. exists (sort.Sort RI vs).
    destruct (Sort_canonical vs) as [Hp Hc].
    rewrite !lookup_fmap, H. simpl. repeat split; auto.
    intros _ Hn. f_equal. apply Sort_steady; [exact Hc|].
    rewrite (unparsable_count_perm _ _ Hp). exact Hn.
Qed.

End SortFacts.

(** The releases 1.2.3 and 1.2.0 of "foo" stay in place under
    [SortEntries], once and twice. *)
Lemma SortEntries_canonical_witness :
  exists vs',
    repo.Entries (repo.SortEntries sample.releases) !! "foo" = Some vs'
    /\ vs' ≡ₚ [sample.foo_123; sample.foo_120]
    /\ order.canonical vs'
    /\ (2 <= 12 -> 0 <= 1 ->
        repo.Entries (repo.SortEntries (repo.SortEntries sample.releases)) !! "foo"
        = Some vs').
Proof.
  destruct (proj2 (@SortEntries_canonical semver3.lib semver3_order sample.releases "foo")
                  [sample.foo_123; sample.foo_120] eq_refl)
    as (vs' & H1 & H2 & H3 & H4).
  exists vs'. repeat split; [exact H1|exact H2|exact H3|].
  apply H4; simpl; lia.
Defined.

(** C4 (as stated, refuted). Two entries whose versions do not parse are
    exchanged by every [SortEntries]: the sort does not keep their order,
    and sorting a second time changes the catalog again. *)
Lemma SortEntries_not_idempotent :
  repo.Entries (repo.SortEntries sample.unversioned) !! "foo"
    = Some [sample.foo_edge; sample.foo_latest]
  /\ repo.Entries (repo.SortEntries (repo.SortEntries sample.unversioned)) !! "foo"
    = Some [sample.foo_latest; sample.foo_edge]
  /\ repo.SortEntries (repo.SortEntries sample.unversioned)
     <> repo.SortEntries sample.unversioned.
Proof.
  assert (H1 : repo.Entries (repo.SortEntries sample.unversioned) !! "foo"
               = Some [sample.foo_edge; sample.foo_latest]) by (vm_compute; reflexivity).
  assert (H2 : repo.Entries (repo.SortEntries (repo.SortEntries sample.unversioned)) !! "foo"
               = Some [sample.foo_latest; sample.foo_edge]) by (vm_compute; reflexivity).
  split; [exact H1|]. split; [exact H2|].
  intros Heq. rewrite Heq, H1 in H2. discriminate.
Qed.

(** ** Looking an entry up *)
Section GetFacts.
Context {L : semver.Lib} {HL : semver.Laws L}.

Lemma firstMatch_exact c v (vs : list repo.BundleEntry) :
  semver.exact c v -> repo.firstMatch c vs = List.find (order.versionIs v) vs.
Proof.
  intros Hex. induction vs as [|e vs IH]; simpl; [reflexivity|].
  unfold order.versionIs, order.parsed.
  destruct (semver.NewVersion (repo.Version e)) as [t|]; [|exact IH].
  rewrite Hex. destruct (semver.Equal t v); [reflexivity|exact IH].
Qed.

Lemma firstMatch_unparsable c (vs : list repo.BundleEntry) :
  Forall (fun e => order.unparsable e = true) vs -> repo.firstMatch c vs = None.
Proof.
  induction 1 as [|e vs He _ IH]; simpl; [reflexivity|].
  unfold order.unparsable, order.parsed in He.
  destruct (semver.NewVersion (repo.Version e)); [discriminate|exact IH].
Qed.

(** In a canonical list the first entry a constraint admits carries the
    highest version among the entries it admits. *)
Lemma firstMatch_highest c (vs : list repo.BundleEntry) : forall e0 v0,
  order.canonical vs -> e0 ∈ vs ->
  order.parsed e0 = Some v0 -> semver.Check c v0 = true ->
  exists e v, repo.firstMatch c vs = Some e
              /\ e ∈ vs /\ order.parsed e = Some v /\ semver.Check c v = true
              /\ forall e' v', e' ∈ vs -> order.parsed e' = Some v' ->
                               semver.Check c v' = true ->
                               semver.LessThan v v' = false.
Proof.
  induction vs as [|e rest IH]; intros e0 v0 Hc Hin P0 C0; [inversion Hin|].
  simpl in Hc. destruct Hc as [Hb Hc]. rewrite Forall_forall in Hb.
  unfold order.before, order.parsed in *. simpl.
  destruct (semver.NewVersion (repo.Version e)) as [v|] eqn:Pe.
  - destruct (semver.Check c v) eqn:Cv.
    + exists e, v. split; [reflexivity|]. split; [left|]. split; [exact Pe|].
      split; [exact Cv|].
      intros e' v' Hin' Pe' _. apply elem_of_cons in Hin' as [->|Hin'].
      * assert (v' = v) as -> by congruence.
        destruct (semver.LessThan v v) eqn:Hvv; [|reflexivity].
        pose proof (semver.LessThan_asym _ _ Hvv). congruence.
      * specialize (Hb e' Hin'). rewrite Pe' in Hb.
        apply negb_true_iff in Hb. exact Hb.
    + apply elem_of_cons in Hin as [->|Hin]; [congruence|].
      destruct (IH e0 v0 Hc Hin P0 C0) as (e1 & v1 & Hf & Hin1 & P1 & C1 & Hmax).
      exists e1, v1. split; [exact Hf|]. split; [right; exact Hin1|].
      split; [exact P1|]. split; [exact C1|].
      intros e' v' Hin' Pe' Ce'. apply elem_of_cons in Hin' as [->|Hin'].
      * congruence.
      * eapply Hmax; eauto.
  - exfalso. apply elem_of_cons in Hin as [->|Hin]; [congruence|].
    specialize (Hb e0 Hin). rewrite P0 in Hb. discriminate.
Qed.

Lemma length_eqb_0 (s : string) : s <> "" -> (String.length s =? 0) = false.
Proof. destruct s; [congruence|reflexivity]. Qed.


End GetFacts.


(** ** Merging catalogs *)
Section MergeFacts.
Context {L : semver.Lib}.

Lemma mergeEntry_keeps (i : repo.IndexFile) cv name (vs : list repo.BundleEntry) :
  repo.Entries i !! name = Some vs ->
  exists extra, repo.Entries (repo.mergeEntry i cv) !! name = Some (vs ++ extra).
Proof.
  intros H. unfold repo.mergeEntry.
  destruct (negb (repo.Has i (repo.Name cv) (repo.Version cv))).
  - simpl. destruct (decide (repo.Name cv = name)) as [->|Hne].
    + rewrite lookup_insert_eq, H. simpl. eauto.
    + rewrite lookup_insert_ne by exact Hne. exists []. rewrite app_nil_r. exact H.
  - exists []. rewrite app_nil_r. exact H.
Qed.

(** Whatever the order in which the slices of the other catalog are
    visited, [Merge] only appends: the entries a name had before the merge
    are still there, unchanged and in front. *)
Lemma MergeIn_keeps (visit : list (list repo.BundleEntry)) :
  forall (i : repo.IndexFile) name (vs : list repo.BundleEntry),
  repo.Entries i !! name = Some vs ->
  exists extra, repo.Entries (repo.MergeIn visit i) !! name = Some (vs ++ extra).
Proof.
  assert (Hin : forall cvs (i : repo.IndexFile) name (vs : list repo.BundleEntry),
             repo.Entries i !! name = Some vs ->
             exists extra,
               repo.Entries (fold_left repo.mergeEntry cvs i) !! name = Some (vs ++ extra)).
  { induction cvs as [|cv cvs IH]; intros i name vs H; simpl.
    - exists []. rewrite app_nil_r. exact H.
    - destruct (mergeEntry_keeps i cv name vs H) as (x1 & H1).
      destruct (IH _ _ _ H1) as (x2 & H2).
      exists (x1 ++ x2). rewrite app_assoc. exact H2. }
  induction visit as [|cvs visit IH]; intros i name vs H; unfold repo.MergeIn; simpl.
  - exists []. rewrite app_nil_r. exact H.
  - destruct (Hin cvs i name vs H) as (x1 & H1).
    destruct (IH _ _ _ H1) as (x2 & H2).
    exists (x1 ++ x2). rewrite app_assoc. exact H2.
Qed.

End MergeFacts.

(** C5 (the code at the failing input). The catalog [sample.local] holds
    ("foo", "latest"); merging a catalog that holds the same name and
    version appends that entry a second time, and [Has] still answers
    [false] for ("foo", "latest"), before and after the merge. *)
Theorem Merge_unparsable_version :
  repo.Entries (repo.Merge sample.local sample.remote) !! "foo"
    = Some [sample.foo_latest; sample.foo_latest']
  /\ repo.Has sample.local "foo" "latest" = false
  /\ repo.Has (repo.Merge sample.local sample.remote) "foo" "latest" = false.
Proof. vm_compute. auto. Qed.

(** ** Loading an index *)

(** C6 (the code at the failing input). A catalog that [loadIndex] returns
    is the decoded document after [SortEntries]; and a document that
    decodes to a catalog without API version is returned like any other,
    with no [ErrNoAPIVersion]. *)
Theorem loadIndex_no_APIVersion_check {L : semver.Lib} (env : repo.Env)
  (data : string) (i : repo.IndexFile) :
  repo.json_Unmarshal_IndexFile env data = inr i ->
  repo.APIVersion i = "" ->
  repo.loadIndex env data = inr (repo.SortEntries i)
  /\ repo.APIVersion (repo.SortEntries i) = ""
  /\ repo.loadIndex env data <> inl repo.ErrNoAPIVersion.
Proof.
  intros Hd Hv. unfold repo.loadIndex. rewrite Hd. simpl. auto.
Qed.

Lemma loadIndex_no_APIVersion_check_witness :
  repo.loadIndex sample.repo_env sample.no_version_doc
    = inr (repo.SortEntries sample.zero_index)
  /\ repo.APIVersion (repo.SortEntries sample.zero_index) = ""
  /\ repo.loadIndex sample.repo_env sample.no_version_doc <> inl repo.ErrNoAPIVersion.
Proof.
  apply (@loadIndex_no_APIVersion_check semver3.lib sample.repo_env
           sample.no_version_doc sample.zero_index); reflexivity.
Defined.

Lemma loadIndex_sorted {L : semver.Lib} (env : repo.Env) (data : string) i' :
  repo.loadIndex env data = inr i' ->
  exists i, repo.json_Unmarshal_IndexFile env data = inr i /\ i' = repo.SortEntries i.
Proof.
  unfold repo.loadIndex.
  destruct (repo.json_Unmarshal_IndexFile env data) as [err|i]; [discriminate|].
  intros [= <-]. eauto.
Qed.

(** ** The repository generator *)
Section GenerateFacts.
Context (sys : OS) (env : repo.Env).

(** C10. A globbed file whose path ends in "index.json" is passed over: the
    index and the world (files written, directories made, lines printed)
    are as they were, so the whole loop does what it does on the list
    without such files. That holds for the catalog file itself, for one in
    a subdirectory, and for a name that merely ends in "index.json". *)
Theorem generate_skips_index (dir baseURL : string) :
  (forall bundleFile index w,
      strings.HasSuffix bundleFile "index.json" = true ->
      repo.generateOne sys env dir baseURL index bundleFile w = (inr index, w))
  /\ (forall bundles index w,
        repo.generateLoop sys env dir baseURL bundles index w
        = repo.generateLoop sys env dir baseURL (List.filter tracked bundles) index w)
  /\ strings.HasSuffix "repo/index.json" "index.json" = true
  /\ strings.HasSuffix "repo/sub/index.json" "index.json" = true
  /\ strings.HasSuffix "repo/my-index.json" "index.json" = true.
Proof.
  assert (H1 : forall bundleFile index w,
             strings.HasSuffix bundleFile "index.json" = true ->
             repo.generateOne sys env dir baseURL index bundleFile w = (inr index, w)).
  { intros bundleFile index w H. unfold repo.generateOne. rewrite H. reflexivity. }
  split; [exact H1|]. split; [|repeat split; reflexivity].
  induction bundles as [|f bundles IH]; intros index w; [reflexivity|].
  simpl. unfold tracked at 1.
  destruct (strings.HasSuffix f "index.json") eqn:Hs; simpl.
  - unfold bind. rewrite (H1 _ _ _ Hs). apply IH.
  - unfold bind.
    destruct (repo.generateOne sys env dir baseURL index f w) as [[err|index'] w'];
      [reflexivity|apply IH].
Qed.

End GenerateFacts.

Lemma generate_skips_index_witness :
  repo.generateOne sample.sys sample.repo_env "repo" "http://localhost:8080"
    (repo.NewIndexFile 0) "repo/my-index.json" World_empty
  = (inr (repo.NewIndexFile 0), World_empty).
Proof.
  apply (proj1 (generate_skips_index sample.sys sample.repo_env
                  "repo" "http://localhost:8080")).
  reflexivity.
Defined.

(** ** The content store *)
Section StoreFacts.
Context (sys : OS) {Key : Type} (env : store.Env Key).

Lemma writeUnder_ok (d data : string) (w : World) d' w' :
  store.writeUnder sys env d data w = ((d', None), w') ->
  d' = d /\ files w' !! filepath_Join sys [store.Bundles env; d] = Some data.
Proof.
  unfold store.writeUnder, ioutil_WriteFile.
  destruct (WriteFile_err sys w _); [discriminate|].
  intros [= <- <-]. simpl. rewrite lookup_insert_eq. auto.
Qed.

(** C7 (amended). When [signAndWriteBundle] succeeds, the file named by
    the returned digest under the store holds exactly the bytes the digest
    was taken of. Without signing those bytes are what [%v] prints for the
    bundle value; with signing they are the clear-signed text followed by
    a newline. *)
Theorem signAndWriteBundle_digest (bf : bundle.Bundle) (insecure : bool)
  (signer : string) (w : World) (d : string) (w' : World) :
  store.signAndWriteBundle sys env bf insecure signer w = ((d, None), w') ->
  exists data,
    files w' !! filepath_Join sys [store.Bundles env; d] = Some data
    /\ store.digest_OfBuffer env data = inr d
    /\ (insecure = true -> data = store.fmt_v_Bundle bf)
    /\ (insecure = false ->
        exists key signed,
          store.Clearsign env key bf = (signed, None)
          /\ data = signed +:+ store.newline).
Proof.
  unfold store.signAndWriteBundle. destruct insecure.
  - destruct (store.digest_OfBuffer env (store.fmt_v_Bundle bf)) as [err|d0] eqn:Hd;
      [discriminate|].
    intros H. apply writeUnder_ok in H as [-> Hf].
    exists (store.fmt_v_Bundle bf). repeat split; auto. discriminate.
  - destruct (store.LoadKeyRing env w (store.SecretKeyRing env)) as [err|kr];
      [discriminate|].
    destruct kr as [|first kr]; [discriminate|].
    destruct (if negb (String.eqb signer "") then _ else _) as [err|key];
      [discriminate|].
    destruct (store.Clearsign env key bf) as [signed serr] eqn:Hs. simpl.
    destruct serr as [err|]; [discriminate|].
    destruct (store.digest_OfBuffer env (signed +:+ store.newline)) as [err|d0] eqn:Hd;
      [discriminate|].
    intros H. apply writeUnder_ok in H as [-> Hf].
    exists (signed +:+ store.newline). repeat split; auto; [discriminate|].
    intros _. exists key, signed. auto.
Qed.

End StoreFacts.

Lemma signAndWriteBundle_digest_witness :
  exists data,
    files (snd (store.signAndWriteBundle sample.sys sample.store_env sample.bun
                  true "" World_empty))
      !! filepath_Join sample.sys
           [store.Bundles sample.store_env;
            sample.checksum (store.fmt_v_Bundle sample.bun)] = Some data
    /\ store.digest_OfBuffer sample.store_env data
       = inr (sample.checksum (store.fmt_v_Bundle sample.bun))
    /\ data = store.fmt_v_Bundle sample.bun.
Proof.
  destruct (signAndWriteBundle_digest sample.sys sample.store_env sample.bun true ""
              World_empty (sample.checksum (store.fmt_v_Bundle sample.bun))
              (snd (store.signAndWriteBundle sample.sys sample.store_env sample.bun
                      true "" World_empty)) eq_refl)
    as (data & H1 & H2 & H3 & _).
  exists data. split; [exact H1|]. split; [exact H2|]. apply H3. reflexivity.
Defined.

(** C7 (as stated, refuted). Stored without signing, the bundle read from
    [sample.manifest] is written as the text [%v] prints for the bundle
    value, which is not the manifest's bytes. *)
Lemma insecure_store_not_input_bytes :
  let r := store.signAndWriteBundle sample.sys sample.store_env sample.bun
             true "" World_empty in
  exists d,
    fst r = (d, None)
    /\ files (snd r) !! ("home/bundles/" +:+ d)
       = Some "&{bundle 1.0.0 {docker bundle:1.0.0} [] map[] map[]}"
    /\ files (snd r) !! ("home/bundles/" +:+ d) <> Some sample.manifest.
Proof.
  eexists. split; [reflexivity|]. split; [vm_compute; reflexivity|].
  vm_compute. discriminate.
Qed.

(** ** What a computation leaves alone *)
Section Respects.
Context (R : World -> World -> Prop).
Hypothesis R_refl : forall w, R w w.
Hypothesis R_trans : forall a b c, R a b -> R b c -> R a c.

Lemma respects_ret {A : Type} (a : A) : respects R (ret a).
Proof. intros w. apply R_refl. Qed.

Lemma respects_fail {A : Type} (e : error) : respects R (@fail A e).
Proof. intros w. apply R_refl. Qed.

Lemma respects_lift {A : Type} (r : error + A) : respects R (lift r).
Proof. intros w. apply R_refl. Qed.

Lemma respects_read {A : Type} (f : World -> error + A) :
  respects R (fun w => (f w, w)).
Proof. intros w. apply R_refl. Qed.

Lemma respects_ReadFile (path : string) : respects R (ioutil_ReadFile path).
Proof.
  intros w. unfold ioutil_ReadFile. destruct (files w !! path); apply R_refl.
Qed.

Lemma respects_bind {A B : Type} (m : M A) (k : A -> M B) :
  respects R m -> (forall a, respects R (k a)) -> respects R (bind m k).
Proof.
  intros Hm Hk w. unfold bind. specialize (Hm w).
  destruct (m w) as [[e|a] w1]; simpl in *; [exact Hm|].
  eapply R_trans; [exact Hm|apply Hk].
Qed.

Lemma respects_act (f : World -> World) :
  (forall w, R w (f w)) -> respects R (act f).
Proof. intros H w. apply H. Qed.

Lemma respects_WriteFile (sys : OS) (path data : string) :
  (forall w f, R w (set_files f w)) -> respects R (ioutil_WriteFile sys path data).
Proof.
  intros H w. unfold ioutil_WriteFile.
  destruct (WriteFile_err sys w path); [apply R_refl|apply H].
Qed.

End Respects.

Lemma same_stored_refl w : same_stored w w.
Proof. reflexivity. Qed.

Lemma same_stored_trans a b c : same_stored a b -> same_stored b c -> same_stored a c.
Proof. unfold same_stored. congruence. Qed.

Lemma more_requests_refl w : more_requests w w.
Proof. exists []. rewrite app_nil_r. reflexivity. Qed.

Lemma more_requests_trans a b c :
  more_requests a b -> more_requests b c -> more_requests a c.
Proof.
  intros [x Hx] [y Hy]. exists (x ++ y). rewrite Hy, Hx, app_assoc. reflexivity.
Qed.

(** ** Resolving a reference *)
Section ResolveFacts.
Context (sys : OS) {Driver Credentials : Type} (env : main.Env Driver Credentials).

Section Quiet.
Context (R : World -> World -> Prop).
Hypothesis R_refl : forall w, R w w.
Hypothesis R_trans : forall a b c, R a b -> R b c -> R a c.
Hypothesis R_files : forall w f, R w (set_files f w).
Hypothesis R_log : forall w l, R w (add_log l w).
Hypothesis R_request : forall w u, R w (add_request u w).

Lemma http_Get_respects url : respects R (main.http_Get env url).
Proof. intros w. apply R_request. Qed.

Lemma fetchMirrors_respects entry urls :
  respects R (main.fetchMirrors sys env entry urls).
Proof.
  induction urls as [|url rest IH]; simpl.
  - apply respects_fail, R_refl.
  - apply respects_bind; [exact R_trans|apply http_Get_respects|]. intros resp.
    destruct (negb (main.StatusCode resp =? main.StatusOK)).
    + apply respects_bind; [exact R_trans|apply respects_act; intros; apply R_log|].
      intros _. exact IH.
    + apply respects_bind; [exact R_trans|apply respects_lift, R_refl|]. intros b.
      apply respects_bind; [exact R_trans| |intros _; apply respects_ret, R_refl].
      unfold main.bundle_WriteFile.
      apply respects_bind; [exact R_trans|apply respects_lift, R_refl|]. intros d.
      apply respects_WriteFile; [exact R_refl|exact R_files].
Qed.

Lemma getBundleFile_respects bundleName :
  respects R (main.getBundleFile sys env bundleName).
Proof.
  unfold main.getBundleFile.
  apply respects_bind; [exact R_trans|apply respects_lift, R_refl|]. intros ref.
  apply respects_bind; [exact R_trans|apply http_Get_respects|]. intros resp.
  destruct (negb (main.StatusCode resp =? main.StatusOK)).
  - apply respects_fail, R_refl.
  - apply respects_bind; [exact R_trans|apply respects_lift, R_refl|]. intros entry.
    apply fetchMirrors_respects.
Qed.

Lemma prepare_respects args fl : respects R (main.prepare sys env args fl).
Proof.
  unfold main.prepare.
  apply respects_bind; [exact R_trans| |].
  { unfold main.bundleFileOrArg2.
    repeat match goal with
           | |- respects R (if ?c then _ else _) => destruct c
           end;
      try apply respects_fail, R_refl; try apply respects_ret, R_refl.
    apply getBundleFile_respects. }
  intros bundleFile.
  apply respects_bind; [exact R_trans| |].
  { unfold main.loadBundle.
    apply respects_bind; [exact R_trans|apply respects_ReadFile, R_refl|].
    intros data. apply respects_lift, R_refl. }
  intros bun.
  apply respects_bind; [exact R_trans| |].
  { unfold main.check. destruct (main.validateImage _);
      [apply respects_fail, R_refl|apply respects_ret, R_refl]. }
  intros _.
  apply respects_bind; [exact R_trans|apply respects_lift, R_refl|]. intros driverImpl.
  apply respects_bind; [exact R_trans|apply respects_read, R_refl|]. intros creds.
  apply respects_bind; [exact R_trans|apply respects_lift, R_refl|]. intros c.
  apply respects_bind; [exact R_trans| |intros c3; apply respects_ret, R_refl].
  destruct (negb (String.eqb (main.valuesFile fl) "")); [|apply respects_ret, R_refl].
  apply respects_bind; [exact R_trans| |intros vals; apply respects_ret, R_refl].
  unfold main.parseValues.
  repeat match goal with
         | |- respects R (if ?c then _ else _) => destruct c
         end;
    try apply respects_fail, R_refl;
    (apply respects_bind; [exact R_trans|apply respects_ReadFile, R_refl|]);
    intros data; apply respects_lift, R_refl.
Qed.

End Quiet.

Lemma fetchMirrors_requests entry urls :
  respects more_requests (main.fetchMirrors sys env entry urls).
Proof.
  apply fetchMirrors_respects.
  - exact more_requests_refl.
  - exact more_requests_trans.
  - intros w f. exists []. rewrite app_nil_r. reflexivity.
  - intros w l. exists []. rewrite app_nil_r. reflexivity.
  - intros w u. exists [u]. reflexivity.
Qed.

Lemma getBundleFile_first_request bundleName ref w :
  main.taggedRef env (snd (main.splitProto bundleName)) = inr ref ->
  exists more,
    requests (snd (main.getBundleFile sys env bundleName w))
    = requests w ++ main.lookupURL env (fst (main.splitProto bundleName)) ref :: more.
Proof.
  intros Ht. unfold main.getBundleFile, bind, lift. rewrite Ht.
  unfold main.http_Get.
  destruct (main.Get env w _) as [e|resp]; simpl; [exists []; reflexivity|].
  destruct (negb (main.StatusCode resp =? main.StatusOK)); simpl;
    [exists []; reflexivity|].
  destruct (main.decode_BundleEntry env (main.Body resp)) as [e|entry]; simpl;
    [exists []; reflexivity|].
  destruct (fetchMirrors_requests entry (repo.URLs entry)
              (add_request (main.lookupURL env (fst (main.splitProto bundleName)) ref) w))
    as [more Hm].
  exists more. rewrite Hm. simpl. rewrite <- app_assoc. reflexivity.
Qed.


(** C8 (amended). In the loop over the mirrors: a mirror that answers
    with a status other than 200 is logged and passed over; the first
    mirror that answers 200 has its body parsed as a manifest, written to
    NAME-VERSION.json under the cache, and that path is returned at once;
    when every mirror answers a status other than 200 the error names the
    URLs of the entry; and a request that fails in transport ends the
    resolution with that error. *)
Theorem fetchMirrors_cases (entry : repo.BundleEntry) :
  (forall url rest w resp,
      main.Get env w url = inr resp ->
      main.StatusCode resp <> main.StatusOK ->
      main.fetchMirrors sys env entry (url :: rest) w
      = main.fetchMirrors sys env entry rest
          (add_log (main.non200 url (main.StatusCode resp)) (add_request url w)))
  /\ (forall url rest w resp b d,
        main.Get env w url = inr resp ->
        main.StatusCode resp = main.StatusOK ->
        main.bundle_ParseReader env (main.Body resp) = inr b ->
        main.json_Marshal_Bundle env b = inr d ->
        let path := filepath_Join sys
                      [main.Cache env;
                       bundle.Name b +:+ "-" +:+ bundle.Version b +:+ ".json"] in
        WriteFile_err sys (add_request url w) path = None ->
        main.fetchMirrors sys env entry (url :: rest) w
        = (inr path, set_files (<[path := d]>) (add_request url w)))
  /\ (forall urls w,
        (forall url w', url ∈ urls ->
           exists resp, main.Get env w' url = inr resp
                        /\ main.StatusCode resp <> main.StatusOK) ->
        fst (main.fetchMirrors sys env entry urls w)
        = inl (fmt_Errorf ("unable to fetch " +:+ repo.Name entry +:+ " "
                           +:+ repo.Version entry
                           +:+ ": no requests to the following URLs succeeded: "
                           +:+ fmt_v_strings (repo.URLs entry)))
        /\ requests (snd (main.fetchMirrors sys env entry urls w)) = requests w ++ urls)
  /\ (forall url rest w err,
        main.Get env w url = inl err ->
        main.fetchMirrors sys env entry (url :: rest) w = (inl err, add_request url w)).
Proof.
  assert (Hskip : forall url rest w resp,
      main.Get env w url = inr resp ->
      main.StatusCode resp <> main.StatusOK ->
      main.fetchMirrors sys env entry (url :: rest) w
      = main.fetchMirrors sys env entry rest
          (add_log (main.non200 url (main.StatusCode resp)) (add_request url w))).
  { intros url rest w resp Hg Hs. simpl. unfold bind at 1. unfold main.http_Get.
    rewrite Hg. apply Nat.eqb_neq in Hs. rewrite Hs. reflexivity. }
  split; [exact Hskip|]. split; [|split].
  - intros url rest w resp b d Hg Hs Hb Hd path Hw. simpl.
    unfold bind at 1. unfold main.http_Get. rewrite Hg.
    apply Nat.eqb_eq in Hs. rewrite Hs. simpl.
    unfold bind at 1. unfold lift. rewrite Hb.
    unfold bind at 1. unfold main.bundle_WriteFile.
    unfold bind at 1. unfold lift. rewrite Hd.
    unfold ioutil_WriteFile. fold path. rewrite Hw. reflexivity.
  - induction urls as [|url rest IH]; intros w Hall.
    + simpl. rewrite app_nil_r. auto.
    + destruct (Hall url w) as (resp & Hg & Hs); [left|].
      rewrite (Hskip _ _ _ _ Hg Hs).
      destruct (IH (add_log (main.non200 url (main.StatusCode resp)) (add_request url w)))
        as [H1 H2].
      { intros u w' Hu. apply Hall. right. exact Hu. }
      split; [exact H1|]. rewrite H2. simpl. rewrite <- app_assoc. reflexivity.
  - intros url rest w err Hg. simpl. unfold bind at 1. unfold main.http_Get.
    rewrite Hg. reflexivity.
Qed.

Lemma prepare_stored args fl : respects same_stored (main.prepare sys env args fl).
Proof.
  apply prepare_respects.
  - exact same_stored_refl.
  - exact same_stored_trans.
  - reflexivity.
  - reflexivity.
  - reflexivity.
Qed.

(** C2. Once the command has built the claim and reaches the install
    action, the claim store is called exactly once, with that claim as the
    action left it, whether the action failed or not; when the action
    failed the command returns "Install step failed: " followed by the
    action's error, in the world in which the store has been called; when
    it did not, the command returns what the store returned. *)
Theorem install_stores_once (args : list string) (fl : main.Flags) (w : World)
  (d : Driver) (creds : Credentials) (c : claim.Claim) (w1 : World) :
  main.prepare sys env args fl w = (inr (d, creds, c), w1) ->
  let w2 := add_stdout "Executing install action..." w1 in
  let c' := fst (main.Install_Run env w2 d c creds) in
  let err := snd (main.Install_Run env w2 d c creds) in
  stored (snd (main.install sys env args fl w)) = stored w ++ [c']
  /\ (forall e, err = Some e ->
        fst (main.install sys env args fl w)
        = inl (fmt_Errorf ("Install step failed: " +:+ error_msg e)))
  /\ (err = None ->
      fst (main.install sys env args fl w)
      = match main.Store_err env w2 c' with
        | Some e2 => inl e2
        | None => inr tt
        end).
Proof.
  intros Hp w2 c' err.
  pose proof (prepare_stored args fl w) as Hs. rewrite Hp in Hs.
  unfold same_stored in Hs. simpl in Hs.
  unfold main.install, bind. rewrite Hp. simpl. unfold main.execute.
  fold w2. fold c'. fold err. unfold main.claimStorage_Store. simpl.
  split; [|split].
  - destruct err as [e|]; [|destruct (main.Store_err env w2 c')]; simpl;
      rewrite Hs; reflexivity.
  - intros e ->. reflexivity.
  - intros ->. destruct (main.Store_err env w2 c'); reflexivity.
Qed.

(** C1 (amended). When both the install action and the claim store fail,
    the command returns "Install step failed: " followed by the action's
    error; the error of the store is dropped. *)
Theorem install_both_fail (args : list string) (fl : main.Flags) (w : World)
  (d : Driver) (creds : Credentials) (c : claim.Claim) (w1 : World) (e e2 : error) :
  main.prepare sys env args fl w = (inr (d, creds, c), w1) ->
  let w2 := add_stdout "Executing install action..." w1 in
  snd (main.Install_Run env w2 d c creds) = Some e ->
  main.Store_err env w2 (fst (main.Install_Run env w2 d c creds)) = Some e2 ->
  fst (main.install sys env args fl w)
  = inl (fmt_Errorf ("Install step failed: " +:+ error_msg e)).
Proof.
  intros Hp w2 He He2.
  unfold main.install, bind. rewrite Hp. simpl. unfold main.execute.
  fold w2. rewrite He. reflexivity.
Qed.

End ResolveFacts.


(** The first mirror answers 404 and is logged, the second is taken. *)
Lemma fetchMirrors_cases_witness :
  main.fetchMirrors sample.sys (sample.env sample.net_missing None None)
    sample.mirrored [sample.mirror1; sample.mirror2] World_empty
  = (inr "home/cache/bundle-1.0.0.json",
     set_files (<["home/cache/bundle-1.0.0.json" := sample.manifest]>)
       (add_request sample.mirror2
          (add_log (main.non200 sample.mirror1 404)
             (add_request sample.mirror1 World_empty)))).
Proof.
  destruct (fetchMirrors_cases sample.sys (sample.env sample.net_missing None None)
              sample.mirrored) as (Hskip & Hwin & _ & _).
  rewrite (Hskip sample.mirror1 [sample.mirror2] World_empty
             {| main.StatusCode := 404; main.Body := "" |} eq_refl);
    [|discriminate].
  apply (Hwin sample.mirror2 [] _
           {| main.StatusCode := 200; main.Body := sample.manifest |} sample.bun
           sample.manifest); reflexivity.
Defined.

(** C8 (as stated, refuted). The first mirror refuses the connection and
    the second would serve the manifest: the resolution ends with the
    error of the first request, nothing is logged and the second mirror is
    never asked. *)
Lemma mirror_transport_error_aborts :
  let r := main.getBundleFile sample.sys (sample.env sample.net_refused None None)
             "name.example.org/bundle:1.0.0" World_empty in
  fst r = inl (errors_New "dial tcp: connection refused")
  /\ requests (snd r) = [sample.lookup_url; sample.mirror1]
  /\ logs (snd r) = []
  /\ sample.net_refused sample.mirror2 = sample.ok sample.manifest.
Proof. vm_compute. auto. Qed.

(** [duffle install my_release -f bundle.json] with an action that fails
    and a claim store that works: one claim stored, the wrapped error
    returned. *)
Lemma install_stores_once_witness :
  stored (snd (main.install sample.sys
                 (sample.env sample.net_missing (Some sample.boom) None)
                 ["my_release"] sample.flags sample.disk))
  = [sample.my_claim]
  /\ fst (main.install sample.sys
            (sample.env sample.net_missing (Some sample.boom) None)
            ["my_release"] sample.flags sample.disk)
     = inl (fmt_Errorf "Install step failed: exit status 1").
Proof.
  destruct (install_stores_once sample.sys
              (sample.env sample.net_missing (Some sample.boom) None)
              ["my_release"] sample.flags sample.disk
              "docker" "" sample.my_claim sample.disk eq_refl) as (H1 & H2 & _).
  split; [exact H1|]. exact (H2 sample.boom eq_refl).
Defined.

Lemma install_both_fail_witness :
  fst (main.install sample.sys
         (sample.env sample.net_missing (Some sample.boom) (Some sample.disk_full))
         ["my_release"] sample.flags sample.disk)
  = inl (fmt_Errorf "Install step failed: exit status 1").
Proof.
  exact (install_both_fail sample.sys
           (sample.env sample.net_missing (Some sample.boom) (Some sample.disk_full))
           ["my_release"] sample.flags sample.disk
           "docker" "" sample.my_claim sample.disk sample.boom sample.disk_full
           eq_refl eq_refl eq_refl).
Defined.

(** C1 (as stated, refuted). The action fails with "exit status 1" and the
    claim store with "no space left on device": the command returns the
    wrapped error of the action, not the error of the store. *)
Lemma install_returns_action_error :
  let env := sample.env sample.net_missing (Some sample.boom) (Some sample.disk_full) in
  let r := main.install sample.sys env ["my_release"] sample.flags sample.disk in
  main.prepare sample.sys env ["my_release"] sample.flags sample.disk
    = (inr ("docker", "", sample.my_claim), sample.disk)
  /\ main.Install_Run env (add_stdout "Executing install action..." sample.disk)
       "docker" sample.my_claim "" = (sample.my_claim, Some sample.boom)
  /\ main.Store_err env (add_stdout "Executing install action..." sample.disk)
       sample.my_claim = Some sample.disk_full
  /\ stored (snd r) = [sample.my_claim]
  /\ fst r = inl (fmt_Errorf "Install step failed: exit status 1")
  /\ fst r <> inl sample.disk_full.
Proof.
  vm_compute. repeat split; try reflexivity. discriminate.
Qed.

(** * Further properties of the index catalog *)
Section QueryFacts.
Context {L : semver.Lib}.

Lemma firstMatch_find c (vs : list repo.BundleEntry) :
  repo.firstMatch c vs = List.find (query.admits c) vs.
Proof.
  induction vs as [|e vs IH]; simpl; [reflexivity|].
  unfold query.admits, order.parsed.
  destruct (semver.NewVersion (repo.Version e)) as [t|]; [|exact IH].
  destruct (semver.Check c t); [reflexivity|exact IH].
Qed.

Lemma Get_unfold (i : repo.IndexFile) (name version : string) :
  repo.Get i name version
  = match repo.Entries i !! name with
    | None => inl repo.ErrNoBundleName
    | Some [] => inl repo.ErrNoBundleVersion
    | Some vs =>
        match query.constraintOf version with
        | inl err => inl err
        | inr c =>
            match List.find (query.admits c) vs with
            | Some e => inr e
            | None => inl (fmt_Errorf ("No bundle version found for "
                                       +:+ name +:+ "-" +:+ version))
            end
        end
    end.
Proof.
  unfold repo.Get, query.constraintOf.
  destruct (repo.Entries i !! name) as [[|e vs]|]; try reflexivity.
  simpl length. simpl Nat.eqb. cbv iota.
  destruct (if String.length version =? 0 then _ else _); [reflexivity|].
  rewrite firstMatch_find. reflexivity.
Qed.

Lemma find_first {A : Type} (f : A -> bool) (l : list A) e :
  List.find f l = Some e ->
  exists pre post, l = pre ++ e :: post /\ f e = true
                   /\ Forall (fun x => f x = false) pre.
Proof.
  induction l as [|a l IH]; simpl; [discriminate|].
  destruct (f a) eqn:Fa.
  - intros [= <-]. exists [], l. auto.
  - intros H. destruct (IH H) as (pre & post & -> & Fe & Hpre).
    exists (a :: pre), post. auto.
Qed.

Lemma find_existsb {A : Type} (f : A -> bool) (l : list A) :
  existsb f l = match List.find f l with Some _ => true | None => false end.
Proof.
  induction l as [|a l IH]; simpl; [reflexivity|].
  destruct (f a); simpl; [reflexivity|exact IH].
Qed.

Lemma find_app_Some {A : Type} (f : A -> bool) (l extra : list A) e :
  List.find f l = Some e -> List.find f (l ++ extra) = Some e.
Proof.
  induction l as [|a l IH]; simpl; [discriminate|].
  destruct (f a); auto.
Qed.

(** X1. What [Get] returns is filed under the name, its version parses and
    passes the constraint built from the version argument, and no entry
    in front of it does: an entry whose version does not parse is never
    returned. *)
Theorem Get_sound (i : repo.IndexFile) (name version : string) e :
  repo.Get i name version = inr e ->
  exists vs c pre post,
    repo.Entries i !! name = Some vs
    /\ query.constraintOf version = inr c
    /\ vs = pre ++ e :: post
    /\ query.admits c e = true
    /\ order.unparsable e = false
    /\ Forall (fun e' => query.admits c e' = false) pre.
Proof.
  rewrite Get_unfold.
  destruct (repo.Entries i !! name) as [vs|]; [|discriminate].
  destruct vs as [|e1 vs1]; [discriminate|].
  destruct (query.constraintOf version) as [err|c]; [discriminate|].
  destruct (List.find (query.admits c) (e1 :: vs1)) as [e'|] eqn:Hf; [|discriminate].
  intros [= ->]. destruct (find_first _ _ _ Hf) as (pre & post & Hv & Ha & Hpre).
  exists (e1 :: vs1), c, pre, post. repeat split; auto.
  unfold query.admits, order.unparsable in *.
  destruct (order.parsed e); [reflexivity|discriminate].
Qed.

Lemma Has_existsb (i : repo.IndexFile) (name version : string) :
  repo.Has i name version
  = match repo.Entries i !! name, query.constraintOf version with
    | Some vs, inr c => existsb (query.admits c) vs
    | _, _ => false
    end.
Proof.
  unfold repo.Has. rewrite Get_unfold.
  destruct (repo.Entries i !! name) as [vs|]; [|reflexivity].
  destruct vs as [|e1 vs1].
  - destruct (query.constraintOf version); reflexivity.
  - destruct (query.constraintOf version) as [err|c]; [reflexivity|].
    rewrite find_existsb. destruct (List.find _ _); reflexivity.
Qed.

Lemma Has_spec (i : repo.IndexFile) (name version : string) :
  repo.Has i name version = true <->
  exists vs c e,
    repo.Entries i !! name = Some vs
    /\ query.constraintOf version = inr c
    /\ e ∈ vs /\ query.admits c e = true.
Proof.
  unfold repo.Has. rewrite Get_unfold. split.
  - destruct (repo.Entries i !! name) as [vs|]; [|discriminate].
    destruct vs as [|e1 vs1]; [discriminate|].
    destruct (query.constraintOf version) as [err|c]; [discriminate|].
    destruct (List.find (query.admits c) (e1 :: vs1)) as [e|] eqn:Hf; [|discriminate].
    intros _. apply find_some in Hf as [Hin Ha].
    exists (e1 :: vs1), c, e. repeat split; auto. apply list_elem_of_In. exact Hin.
  - intros (vs & c & e & -> & -> & Hin & Ha).
    destruct vs as [|e1 vs1]; [inversion Hin|].
    destruct (List.find (query.admits c) (e1 :: vs1)) as [e'|] eqn:Hf; [reflexivity|].
    apply list_elem_of_In in Hin.
    pose proof (find_none _ _ Hf e Hin). congruence.
Qed.

(** X2. [Has] answers [true] exactly when the name is a key, the version
    argument yields a constraint, and some entry under the name has a
    version that parses and passes it. *)
Theorem Has_iff (i : repo.IndexFile) (name version : string) :
  repo.Has i name version = true <->
  exists vs c e,
    repo.Entries i !! name = Some vs
    /\ query.constraintOf version = inr c
    /\ e ∈ vs /\ query.admits c e = true.
Proof.
  rewrite Has_existsb. split.
  - destruct (repo.Entries i !! name) as [vs|]; [|discriminate].
    destruct (query.constraintOf version) as [err|c]; [discriminate|].
    intros H. apply existsb_exists in H as (e & Hin & Ha).
    exists vs, c, e. repeat split; auto. apply list_elem_of_In, Hin.
  - intros (vs & c & e & -> & -> & Hin & Ha).
    apply existsb_exists. exists e. split; [apply list_elem_of_In, Hin|exact Ha].
Qed.

End QueryFacts.

Lemma Get_sound_witness :
  exists vs c pre post,
    repo.Entries sample.releases !! "foo" = Some vs
    /\ query.constraintOf "1.2.0" = inr c
    /\ vs = pre ++ sample.foo_120 :: post
    /\ query.admits c sample.foo_120 = true
    /\ order.unparsable sample.foo_120 = false
    /\ Forall (fun e' => query.admits c e' = false) pre.
Proof.
  apply (@Get_sound semver3.lib sample.releases "foo" "1.2.0" sample.foo_120).
  reflexivity.
Defined.

Section OrderedQueryFacts.
Context {L : semver.Lib} {HO : semver.Order L}.

Lemma Equal_refl (v : semver.Version) : semver.Equal v v = true.
Proof.
  unfold semver.Equal.
  destruct (semver.LessThan v v) eqn:H; [|reflexivity].
  pose proof (semver.LessThan_asym _ _ H). congruence.
Qed.

Lemma find_admits_highest c (vs : list repo.BundleEntry) : forall e0,
  order.canonical vs -> e0 ∈ vs -> query.admits c e0 = true ->
  exists e v, List.find (query.admits c) vs = Some e
              /\ e ∈ vs /\ order.parsed e = Some v /\ semver.Check c v = true
              /\ forall e' v', e' ∈ vs -> order.parsed e' = Some v' ->
                               semver.Check c v' = true ->
                               semver.LessThan v v' = false.
Proof.
  induction vs as [|e rest IH]; intros e0 Hc Hin A0; [inversion Hin|].
  simpl in Hc. destruct Hc as [Hb Hc]. rewrite Forall_forall in Hb.
  simpl. unfold query.admits at 1.
  destruct (order.parsed e) as [v|] eqn:Pe.
  - destruct (semver.Check c v) eqn:Cv.
    + exists e, v. split; [reflexivity|]. split; [left|]. split; [exact Pe|].
      split; [exact Cv|].
      intros e' v' Hin' Pe' _. apply elem_of_cons in Hin' as [->|Hin'].
      * assert (v' = v) as -> by congruence.
        pose proof (Equal_refl v) as He. unfold semver.Equal in He.
        destruct (semver.LessThan v v); [discriminate|reflexivity].
      * specialize (Hb e' Hin'). unfold order.before in Hb. rewrite Pe, Pe' in Hb.
        apply negb_true_iff in Hb. exact Hb.
    + apply elem_of_cons in Hin as [->|Hin].
      { unfold query.admits in A0. rewrite Pe in A0. congruence. }
      destruct (IH e0 Hc Hin A0) as (e1 & v1 & Hf & Hin1 & P1 & C1 & Hmax).
      exists e1, v1. split; [exact Hf|]. split; [right; exact Hin1|].
      split; [exact P1|]. split; [exact C1|].
      intros e' v' Hin' Pe' Ce'. apply elem_of_cons in Hin' as [->|Hin'].
      * congruence.
      * eapply Hmax; eauto.
  - exfalso. apply elem_of_cons in Hin as [->|Hin].
    + unfold query.admits in A0. rewrite Pe in A0. discriminate.
    + specialize (Hb e0 Hin). unfold order.before in Hb. rewrite Pe in Hb.
      unfold query.admits in A0. destruct (order.parsed e0); discriminate.
Qed.

(** X3. On a list in canonical order, [Get] with any constraint returns
    the entry with the highest version among those the constraint admits
    (for instance the newest release of a range). *)
Theorem Get_highest (i : repo.IndexFile) (name version : string)
  (vs : list repo.BundleEntry) c e0 :
  repo.Entries i !! name = Some vs ->
  order.canonical vs ->
  query.constraintOf version = inr c ->
  e0 ∈ vs -> query.admits c e0 = true ->
  exists e v,
    repo.Get i name version = inr e
    /\ e ∈ vs /\ order.parsed e = Some v /\ semver.Check c v = true
    /\ forall e' v', e' ∈ vs -> order.parsed e' = Some v' ->
                     semver.Check c v' = true ->
                     semver.LessThan v v' = false.
Proof.
  intros Hl Hc Hv Hin Ha.
  destruct (find_admits_highest c vs e0 Hc Hin Ha) as (e & v & Hf & He & Pe & Ce & Hmax).
  exists e, v. rewrite Get_unfold, Hl, Hv.
  destruct vs as [|e1 vs1]; [inversion Hin|]. rewrite Hf. auto.
Qed.

(** X4. Adding an entry whose version is a full semantic version makes
    [Has] answer [true] for its name and version; the entry is filed last
    under its name, the other names keep their lists, and every query
    that [Has] answered [true] for is still answered [true]. *)
Theorem Add_Has (i : repo.IndexFile) (e : repo.BundleEntry) :
  query.exactVersion e ->
  repo.Has (repo.Add i e) (repo.Name e) (repo.Version e) = true
  /\ query.under (repo.Add i e) (repo.Name e) = query.under i (repo.Name e) ++ [e]
  /\ (forall name, name <> repo.Name e ->
        repo.Entries (repo.Add i e) !! name = repo.Entries i !! name)
  /\ (forall name version,
        repo.Has i name version = true -> repo.Has (repo.Add i e) name version = true).
Proof.
  intros (Hne & c & v & Hc & Hp & Hex).
  assert (Hu : query.under (repo.Add i e) (repo.Name e)
               = query.under i (repo.Name e) ++ [e]).
  { unfold query.under, repo.Add.
    destruct (repo.Entries i !! repo.Name e) as [ee|]; simpl;
      rewrite lookup_insert_eq; reflexivity. }
  assert (Ho : forall name, name <> repo.Name e ->
             repo.Entries (repo.Add i e) !! name = repo.Entries i !! name).
  { intros name Hn. unfold repo.Add.
    destruct (repo.Entries i !! repo.Name e) as [ee|]; simpl;
      rewrite lookup_insert_ne by congruence; reflexivity. }
  assert (Hl : repo.Entries (repo.Add i e) !! repo.Name e
               = Some (query.under i (repo.Name e) ++ [e])).
  { unfold query.under, repo.Add.
    destruct (repo.Entries i !! repo.Name e) as [ee|]; simpl;
      rewrite lookup_insert_eq; reflexivity. }
  split; [|split; [exact Hu|split; [exact Ho|]]].
  - apply Has_spec. exists (query.under i (repo.Name e) ++ [e]), c, e.
    split; [exact Hl|]. split.
    + unfold query.constraintOf. rewrite (length_eqb_0 _ Hne). exact Hc.
    + split; [apply elem_of_app; right; left|].
      unfold query.admits. rewrite Hp, Hex. apply Equal_refl.
  - intros name version. rewrite !Has_spec.
    intros (vs & c' & e' & Hvs & Hc' & Hin & Ha).
    destruct (decide (name = repo.Name e)) as [->|Hn].
    + exists (vs ++ [e]), c', e'. split.
      { rewrite Hl. unfold query.under. rewrite Hvs. reflexivity. }
      split; [exact Hc'|]. split; [apply elem_of_app; left; exact Hin|exact Ha].
    + exists vs, c', e'. rewrite (Ho _ Hn). auto.
Qed.

End OrderedQueryFacts.

Lemma Get_highest_witness :
  exists e v,
    repo.Get sample.releases "foo" "" = inr e
    /\ e ∈ [sample.foo_123; sample.foo_120]
    /\ order.parsed e = Some v /\ semver.Check semver3.Any v = true
    /\ forall e' v', e' ∈ [sample.foo_123; sample.foo_120] ->
                     order.parsed e' = Some v' ->
                     semver.Check semver3.Any v' = true ->
                     semver.LessThan v v' = false.
Proof.
  apply (@Get_highest semver3.lib semver3_order sample.releases "foo" ""
           [sample.foo_123; sample.foo_120] semver3.Any sample.foo_120).
  - reflexivity.
  - simpl. repeat constructor.
  - reflexivity.
  - right. left.
  - reflexivity.
Defined.

Lemma Add_Has_witness :
  repo.Has (repo.Add sample.releases (sample.entry "bar" "2.0.0" "d200")) "bar" "2.0.0" = true.
Proof.
  destruct (@Add_Has semver3.lib semver3_order sample.releases
              (sample.entry "bar" "2.0.0" "d200")) as [H _]; [|exact H].
  split; [discriminate|].
  exists (semver3.Exactly (2, 0, 0)), (2, 0, 0).
  split; [reflexivity|]. split; [reflexivity|]. intros t. reflexivity.
Defined.

(** ** Sorting keeps what is stored *)
Section SortPerm.
Context {L : semver.Lib}.

Local Abbreviation RI := (sort.Reverse repo.BundleEntries_Interface).

Lemma inner_perm (pre : list repo.BundleEntry) : forall x suf,
  sort.insertionInner RI 0 (length pre) (pre ++ x :: suf) ≡ₚ pre ++ x :: suf.
Proof.
  induction pre as [|y pre IH] using rev_ind; intros x suf; [reflexivity|].
  rewrite length_app, Nat.add_1_r. simpl.
  rewrite <- !app_assoc. simpl. rewrite Less_at.
  destruct (order.lessv y x); [|reflexivity].
  rewrite Swap_at, IH. apply Permutation_app_head, perm_swap.
Qed.

Lemma outer_perm (suf : list repo.BundleEntry) : forall pre l,
  length l = length pre ->
  l ++ suf ≡ₚ pre ++ suf ->
  fold_left (fun d i => sort.insertionInner RI 0 i d)
            (seq (length pre) (length suf)) (l ++ suf) ≡ₚ pre ++ suf.
Proof.
  induction suf as [|x suf IH]; intros pre l Hlen Hp; [exact Hp|].
  simpl. rewrite <- Hlen.
  pose proof (inner_perm l x suf) as Hi.
  assert (Hsplit : exists l', sort.insertionInner RI 0 (length l) (l ++ x :: suf) = l' ++ suf
                              /\ length l' = S (length l)).
  { clear. revert x suf. induction l as [|y l IH] using rev_ind; intros x suf.
    - exists [x]. auto.
    - rewrite length_app, Nat.add_1_r. simpl.
      rewrite <- !app_assoc. simpl. rewrite Less_at.
      destruct (order.lessv y x).
      + rewrite Swap_at. destruct (IH x (y :: suf)) as (l' & -> & Hl).
        exists (l' ++ [y]). rewrite <- app_assoc. split; [reflexivity|].
        rewrite length_app, Hl. simpl. lia.
      + exists (l ++ [y; x]). rewrite <- app_assoc. split; [reflexivity|].
        rewrite length_app. simpl. lia. }
  destruct Hsplit as (l' & Heq & Hl'). rewrite Heq in *.
  replace (pre ++ x :: suf) with ((pre ++ [x]) ++ suf) by (rewrite <- app_assoc; reflexivity).
  replace (S (length l)) with (length (pre ++ [x]))
    by (rewrite length_app, Hlen; simpl; lia).
  apply IH.
  - rewrite length_app, Hl', Hlen. simpl. lia.
  - rewrite Hi, <- app_assoc. simpl. exact Hp.
Qed.

Lemma Sort_perm (l : list repo.BundleEntry) : sort.Sort RI l ≡ₚ l.
Proof.
  unfold sort.Sort, sort.insertionSort. simpl.
  destruct l as [|x suf]; [reflexivity|].
  simpl. rewrite Nat.sub_0_r.
  exact (outer_perm suf [x] [x] eq_refl (Permutation_refl _)).
Qed.

Lemma existsb_perm {A : Type} (f : A -> bool) (l l' : list A) :
  l ≡ₚ l' -> existsb f l = existsb f l'.
Proof.
  induction 1; simpl; auto.
  - congruence.
  - destruct (f x), (f y); reflexivity.
  - congruence.
Qed.

(** X5. [SortEntries] changes no answer of [Has], keeps the keys, and
    keeps under every key the same entries, only rearranged; the API
    version, the time stamp and the public keys are untouched. *)
Theorem SortEntries_keeps (i : repo.IndexFile) :
  (forall name version,
      repo.Has (repo.SortEntries i) name version = repo.Has i name version)
  /\ (forall name, query.under (repo.SortEntries i) name ≡ₚ query.under i name)
  /\ dom (repo.Entries (repo.SortEntries i)) = dom (repo.Entries i)
  /\ repo.APIVersion (repo.SortEntries i) = repo.APIVersion i
  /\ repo.Generated (repo.SortEntries i) = repo.Generated i
  /\ repo.PublicKeys (repo.SortEntries i) = repo.PublicKeys i.
Proof.
  split; [|split; [|split; [|auto]]].
  - intros name version. rewrite !Has_existsb.
    unfold repo.SortEntries. simpl. rewrite lookup_fmap.
    destruct (repo.Entries i !! name) as [vs|]; simpl; [|reflexivity].
    destruct (query.constraintOf version) as [err|c]; [reflexivity|].
    apply existsb_perm, Sort_perm.
  - intros name. unfold query.under, repo.SortEntries. simpl. rewrite lookup_fmap.
    destruct (repo.Entries i !! name) as [vs|]; simpl; [apply Sort_perm|reflexivity].
  - unfold repo.SortEntries. simpl. apply dom_fmap_L.
Qed.

End SortPerm.

(** ** Merging, continued *)
Section MergeMore.
Context {L : semver.Lib}.

Lemma MergeIn_fold (visit : list (list repo.BundleEntry)) : forall i,
  repo.MergeIn visit i = fold_left repo.mergeEntry (concat visit) i.
Proof.
  unfold repo.MergeIn. induction visit as [|cvs visit IH]; intros i; simpl;
    [reflexivity|].
  rewrite fold_left_app. apply IH.
Qed.

Lemma mergeEntry_Get (i : repo.IndexFile) cv name version e :
  repo.Get i name version = inr e ->
  repo.Get (repo.mergeEntry i cv) name version = inr e.
Proof.
  rewrite !Get_unfold.
  destruct (repo.Entries i !! name) as [vs|] eqn:Hl; [|discriminate].
  destruct (mergeEntry_keeps i cv name vs Hl) as (extra & ->).
  destruct vs as [|e1 vs1]; [discriminate|].
  change ((e1 :: vs1) ++ extra) with (e1 :: (vs1 ++ extra)). cbv beta iota.
  destruct (query.constraintOf version) as [err|c]; [discriminate|].
  destruct (List.find (query.admits c) (e1 :: vs1)) as [e'|] eqn:Hf; [|discriminate].
  intros [= ->].
  change (e1 :: (vs1 ++ extra)) with ((e1 :: vs1) ++ extra).
  rewrite (find_app_Some _ _ extra _ Hf). reflexivity.
Qed.

Lemma fold_mergeEntry_Get (l : list repo.BundleEntry) : forall i name version e,
  repo.Get i name version = inr e ->
  repo.Get (fold_left repo.mergeEntry l i) name version = inr e.
Proof.
  induction l as [|cv l IH]; intros i name version e H; simpl; [exact H|].
  apply IH, mergeEntry_Get, H.
Qed.

Lemma mergeEntry_under (i : repo.IndexFile) cv name :
  query.under (repo.mergeEntry i cv) name = query.under i name
  \/ (name = repo.Name cv
      /\ query.under (repo.mergeEntry i cv) name = query.under i name ++ [cv]).
Proof.
  unfold repo.mergeEntry, query.under.
  destruct (negb (repo.Has i (repo.Name cv) (repo.Version cv))); [|left; reflexivity].
  simpl. destruct (decide (repo.Name cv = name)) as [<-|Hne].
  - right. rewrite lookup_insert_eq. auto.
  - left. rewrite lookup_insert_ne by exact Hne. reflexivity.
Qed.

Lemma mergeEntry_prefix (i : repo.IndexFile) cv name :
  (exists extra,
      query.under (repo.mergeEntry i cv) name = query.under i name ++ extra)
  /\ (is_Some (repo.Entries i !! name) ->
      is_Some (repo.Entries (repo.mergeEntry i cv) !! name)).
Proof.
  split.
  - destruct (mergeEntry_under i cv name) as [->|[_ ->]];
      [exists []; rewrite app_nil_r; reflexivity|eauto].
  - intros [vs Hvs]. destruct (mergeEntry_keeps i cv name vs Hvs) as (x & ->). eauto.
Qed.

(** X6. A merge only appends: under every name the entries that were
    there are still there, unchanged, in the same order and in front of
    whatever was added, and no key is lost, in whatever order the map of
    the other catalog is visited. *)
Theorem MergeIn_prefix (visit : list (list repo.BundleEntry))
  (i : repo.IndexFile) (name : string) :
  (exists extra,
      query.under (repo.MergeIn visit i) name = query.under i name ++ extra)
  /\ (is_Some (repo.Entries i !! name) ->
      is_Some (repo.Entries (repo.MergeIn visit i) !! name)).
Proof.
  rewrite MergeIn_fold. generalize (concat visit). clear visit.
  intros l. revert i. induction l as [|cv l IH]; intros i; simpl.
  - split; [exists []; rewrite app_nil_r; reflexivity|auto].
  - destruct (IH (repo.mergeEntry i cv)) as [[x2 H2] K2].
    destruct (mergeEntry_prefix i cv name) as [[x1 H1] K1].
    split; [|auto].
    exists (x1 ++ x2). rewrite H2, H1, app_assoc. reflexivity.
Qed.

(** X7. A lookup that succeeded before a merge returns the same entry
    after it, whatever the other catalog holds and in whatever order its
    map is visited: first write wins. *)
Theorem MergeIn_Get_stable (visit : list (list repo.BundleEntry))
  (i : repo.IndexFile) (name version : string) e :
  repo.Get i name version = inr e ->
  repo.Get (repo.MergeIn visit i) name version = inr e.
Proof.
  rewrite MergeIn_fold. generalize (concat visit). clear visit.
  intros l. revert i. induction l as [|cv l IH]; intros i H; simpl.
  - exact H.
  - apply IH, mergeEntry_Get, H.
Qed.



(** X8. Whatever a merge files under a name was there before or is an
    entry of the other catalog whose own [Name] field is that name: the
    merge invents nothing and files by the entry's name, not by the key
    the other catalog kept it under. *)
Theorem MergeIn_from (visit : list (list repo.BundleEntry))
  (i : repo.IndexFile) (name : string) e :
  e ∈ query.under (repo.MergeIn visit i) name ->
  e ∈ query.under i name \/ (repo.Name e = name /\ e ∈ concat visit).
Proof.
  rewrite MergeIn_fold. generalize (concat visit). clear visit.
  intros l. revert i. induction l as [|cv l IH]; intros i; simpl; [auto|].
  intros H. destruct (IH _ H) as [H1|[Hn H1]].
  - destruct (mergeEntry_under i cv name) as [Hu|[Hn Hu]]; rewrite Hu in H1.
    + left. exact H1.
    + apply elem_of_app in H1 as [H1|H1]; [left; exact H1|].
      apply list_elem_of_singleton in H1 as ->. right. split; [auto|left].
  - right. split; [exact Hn|right; exact H1].
Qed.

Lemma fold_mergeEntry_id (l : list repo.BundleEntry) (i : repo.IndexFile) :
  (forall cv, cv ∈ l -> repo.Has i (repo.Name cv) (repo.Version cv) = true) ->
  fold_left repo.mergeEntry l i = i.
Proof.
  induction l as [|cv l IH]; intros H; simpl; [reflexivity|].
  assert (Hcv : repo.mergeEntry i cv = i).
  { unfold repo.mergeEntry. rewrite (H cv) by left. reflexivity. }
  rewrite Hcv. apply IH. intros cv' Hin. apply H. right. exact Hin.
Qed.

Lemma fold_mergeEntry_Has (l : list repo.BundleEntry) (i : repo.IndexFile) name version :
  repo.Has i name version = true ->
  repo.Has (fold_left repo.mergeEntry l i) name version = true.
Proof.
  unfold repo.Has. destruct (repo.Get i name version) as [err|e] eqn:Hg; [discriminate|].
  intros _. rewrite (fold_mergeEntry_Get l _ _ _ _ Hg). reflexivity.
Qed.

Context {HO : semver.Order L}.

Lemma mergeEntry_Has_exact (i : repo.IndexFile) cv :
  query.exactVersion cv ->
  repo.Has (repo.mergeEntry i cv) (repo.Name cv) (repo.Version cv) = true.
Proof.
  intros (Hne & c & v & Hc & Hp & Hex). unfold repo.mergeEntry.
  destruct (repo.Has i (repo.Name cv) (repo.Version cv)) eqn:Hh; simpl; [exact Hh|].
  apply Has_spec.
  exists (default [] (repo.Entries i !! repo.Name cv) ++ [cv]), c, cv.
  simpl. rewrite lookup_insert_eq. split; [reflexivity|]. split.
  - unfold query.constraintOf. rewrite (length_eqb_0 _ Hne). exact Hc.
  - split; [apply elem_of_app; right; left|].
    unfold query.admits. rewrite Hp, Hex. apply Equal_refl.
Qed.

(** X9. After a merge, [Has] answers [true] for the name and version of
    every entry of the other catalog whose version is a full semantic
    version. *)
Theorem MergeIn_Has_exact (visit : list (list repo.BundleEntry))
  (i : repo.IndexFile) cv :
  cv ∈ concat visit -> query.exactVersion cv ->
  repo.Has (repo.MergeIn visit i) (repo.Name cv) (repo.Version cv) = true.
Proof.
  intros Hin Hex. rewrite MergeIn_fold.
  apply list_elem_of_split in Hin as (l1 & l2 & ->).
  rewrite fold_left_app. simpl.
  apply fold_mergeEntry_Has, mergeEntry_Has_exact, Hex.
Qed.

(** X10. Merging the same catalog a second time changes nothing, when
    all its versions are full semantic versions. *)
Theorem MergeIn_twice (visit : list (list repo.BundleEntry)) (i : repo.IndexFile) :
  (forall cv, cv ∈ concat visit -> query.exactVersion cv) ->
  repo.MergeIn visit (repo.MergeIn visit i) = repo.MergeIn visit i.
Proof.
  intros Hall. rewrite (MergeIn_fold visit (repo.MergeIn visit i)).
  apply fold_mergeEntry_id. intros cv Hin.
  rewrite MergeIn_fold.
  pose proof Hin as Hin'. apply list_elem_of_split in Hin' as (l1 & l2 & Heq).
  rewrite Heq, fold_left_app. simpl.
  apply fold_mergeEntry_Has, mergeEntry_Has_exact, Hall, Hin.
Qed.

End MergeMore.

Lemma exactVersion_sample (name version digest : string) v :
  semver3.parse version = Some v ->
  version <> "*" ->
  @query.exactVersion semver3.lib (sample.entry name version digest).
Proof.
  intros Hp Hs. split.
  - simpl. intros ->. discriminate.
  - exists (semver3.Exactly v), v. simpl. unfold semver3.parse_constr.
    destruct (String.eqb_spec version "*"); [contradiction|].
    unfold order.parsed. simpl. rewrite Hp.
    split; [reflexivity|]. split; [reflexivity|]. intros t. reflexivity.
Qed.

(** Merging 1.2.0 (under another digest) and 2.0.0 into the catalog that
    holds 1.2.3 and 1.2.0. *)
Lemma MergeIn_prefix_witness :
  exists extra,
    query.under (repo.MergeIn sample2.incoming sample.releases) "foo"
    = [sample.foo_123; sample.foo_120] ++ extra.
Proof.
  exact (proj1 (@MergeIn_prefix semver3.lib sample2.incoming sample.releases "foo")).
Defined.

Lemma MergeIn_Get_stable_witness :
  repo.Get (repo.MergeIn sample2.incoming sample.releases) "foo" "1.2.0"
  = inr sample.foo_120.
Proof.
  apply (@MergeIn_Get_stable semver3.lib sample2.incoming sample.releases "foo" "1.2.0").
  reflexivity.
Defined.

Lemma MergeIn_from_witness :
  sample2.foo_200 ∈ query.under sample.releases "foo"
  \/ (repo.Name sample2.foo_200 = "foo" /\ sample2.foo_200 ∈ concat sample2.incoming).
Proof.
  apply (@MergeIn_from semver3.lib sample2.incoming sample.releases "foo").
  vm_compute. right. right. left.
Defined.

Lemma MergeIn_Has_exact_witness :
  repo.Has (repo.MergeIn sample2.incoming sample.releases) "foo" "2.0.0" = true.
Proof.
  apply (@MergeIn_Has_exact semver3.lib semver3_order sample2.incoming sample.releases
           sample2.foo_200).
  - right. left.
  - apply (exactVersion_sample "foo" "2.0.0" "d200" (2, 0, 0)); [reflexivity|discriminate].
Defined.

Lemma MergeIn_twice_witness :
  repo.MergeIn sample2.incoming (repo.MergeIn sample2.incoming sample.releases)
  = repo.MergeIn sample2.incoming sample.releases.
Proof.
  apply (@MergeIn_twice semver3.lib semver3_order).
  intros cv Hin. simpl in Hin.
  apply elem_of_cons in Hin as [->|Hin].
  - apply (exactVersion_sample "foo" "1.2.0" "other" (1, 2, 0)); [reflexivity|discriminate].
  - apply elem_of_cons in Hin as [->|Hin]; [|inversion Hin].
    apply (exactVersion_sample "foo" "2.0.0" "d200" (2, 0, 0)); [reflexivity|discriminate].
Defined.

(** ** Loading and generating, continued *)
Section LoadMore.
Context {L : semver.Lib} {HO : semver.Order L} (env : repo.Env).


End LoadMore.


Section GenerateMore.
Context (sys : OS) (env : repo.Env).

(** X12. For a manifest it does not pass over, a successful step of the
    generator adds one entry to the index and writes that same entry,
    marshalled, as the tag file repositories/NAME/tags/VERSION: name and
    version are those of the manifest, the digest is taken of the
    manifest's bytes, the API version is v1 and there is one URL. It
    prints one line and makes the tag directory. *)
Theorem generateOne_adds (dir baseURL : string) (index : repo.IndexFile)
  (bundleFile : string) (w : World) (index' : repo.IndexFile) (w' : World) :
  tracked bundleFile = true ->
  repo.generateOne sys env dir baseURL index bundleFile w = (inr index', w') ->
  exists data b entry doc,
    files w !! bundleFile = Some data
    /\ repo.bundle_Unmarshal env data = inr b
    /\ repo.Name entry = bundle.Name b
    /\ repo.Version entry = bundle.Version b
    /\ repo.Entry_APIVersion entry = repo.APIVersionV1
    /\ repo.Digest entry = repo.provenance_Digest env data
    /\ length (repo.URLs entry) = 1
    /\ index' = repo.Add index entry
    /\ repo.json_Marshal_BundleEntry env entry = inr doc
    /\ files w'
       = <[filepath_Join sys
             [filepath_Join sys [dir; "repositories"; repo.Name entry; "tags"];
              repo.Version entry] := doc]> (files w)
    /\ stdout w'
       = stdout w ++ ["adding " +:+ bundle.Name b +:+ " " +:+ bundle.Version b]
    /\ dirs w'
       = dirs w ++ [filepath_Join sys [dir; "repositories"; repo.Name entry; "tags"]].
Proof.
  unfold tracked. intros Ht. apply negb_true_iff in Ht.
  unfold repo.generateOne. rewrite Ht.
  unfold repo.loader_Load, repo.provenance_DigestFile.
  unfold bind, ioutil_ReadFile, lift, act, ret, time_Now, os_MkdirAll, ioutil_WriteFile.
  destruct (files w !! bundleFile) as [data|] eqn:Hdata; simpl; [|discriminate].
  destruct (repo.bundle_Unmarshal env data) as [err|b] eqn:Hb; simpl; [discriminate|].
  destruct (filepath_Rel sys dir bundleFile) as [err|rel]; simpl; [discriminate|].
  rewrite Hdata. simpl.
  match goal with
  | |- context [repo.json_Marshal_BundleEntry env ?e] => set (entry := e)
  end.
  destruct (repo.json_Marshal_BundleEntry env entry) as [err|doc] eqn:Hdoc; simpl;
    [discriminate|].
  destruct (MkdirAll_err sys _ _); simpl; [discriminate|].
  destruct (WriteFile_err sys _ _); simpl; [discriminate|].
  intros [= <- <-].
  exists data, b, entry, doc. repeat split; auto.
Qed.

End GenerateMore.

Lemma generateOne_adds_witness :
  exists entry doc,
    repo.Name entry = "bundle" /\ repo.Version entry = "1.0.0"
    /\ repo.json_Marshal_BundleEntry sample2.repo_env entry = inr doc
    /\ files (snd (repo.generateOne sample.sys sample2.repo_env "repo"
                     "http://localhost:8080" (repo.NewIndexFile 0)
                     "repo/bundle.json" sample2.repo_dir))
       = <["repo/repositories/bundle/tags/1.0.0" := doc]> (files sample2.repo_dir).
Proof.
  pose (r := repo.generateOne sample.sys sample2.repo_env "repo"
               "http://localhost:8080" (repo.NewIndexFile 0)
               "repo/bundle.json" sample2.repo_dir).
  destruct (generateOne_adds sample.sys sample2.repo_env "repo" "http://localhost:8080"
              (repo.NewIndexFile 0) "repo/bundle.json" sample2.repo_dir
              (match fst r with inr i => i | inl _ => repo.NewIndexFile 0 end) (snd r))
    as (data & b & entry & doc & Hd & Hb & Hn & Hv & _ & _ & _ & _ & Hm & Hf & _).
  - reflexivity.
  - vm_compute. reflexivity.
  - vm_compute in Hd. injection Hd as <-.
    vm_compute in Hb. injection Hb as <-.
    exists entry, doc. rewrite Hn, Hv in *. simpl in Hf.
    split; [reflexivity|]. split; [reflexivity|]. split; [exact Hm|exact Hf].
Defined.

Section GenerateAll.
Context {L : semver.Lib} {HO : semver.Order L} (sys : OS) (env : repo.Env).

(** X13. Once both globs have answered: an error in the loop over the
    manifests is what [GenerateFromDirectory] returns, in the world the
    loop left (no index file is written after it); on success the last
    thing written is index.json, holding the marshalled index with every
    list in canonical order; and with no manifest at all the index that
    is written is the empty one. *)
Theorem GenerateFromDirectory_outcome (dir baseURL : string) (w : World)
  (bundles more : list string) :
  Glob sys w (filepath_Join sys [dir; "*.json"]) = inr bundles ->
  Glob sys w (filepath_Join sys [dir; "**/*.json"]) = inr more ->
  (forall err w1,
      repo.generateLoop sys env dir baseURL (bundles ++ more)
        (repo.NewIndexFile (Now sys w)) w = (inl err, w1) ->
      repo.GenerateFromDirectory sys env dir baseURL w = (inl err, w1))
  /\ (forall index w1 w',
        repo.generateLoop sys env dir baseURL (bundles ++ more)
          (repo.NewIndexFile (Now sys w)) w = (inr index, w1) ->
        repo.GenerateFromDirectory sys env dir baseURL w = (inr tt, w') ->
        exists doc,
          repo.json_Marshal_IndexFile env (repo.SortEntries index) = inr doc
          /\ w' = set_files (<[filepath_Join sys [dir; repo.IndexPath] := doc]>) w1
          /\ forall name, order.canonical (query.under (repo.SortEntries index) name))
  /\ (bundles ++ more = [] ->
      repo.GenerateFromDirectory sys env dir baseURL w
      = repo.WriteFile sys env (repo.NewIndexFile (Now sys w))
          (filepath_Join sys [dir; repo.IndexPath]) w).
Proof.
  intros Hg1 Hg2.
  assert (Hunf : repo.GenerateFromDirectory sys env dir baseURL w
                 = match repo.generateLoop sys env dir baseURL (bundles ++ more)
                           (repo.NewIndexFile (Now sys w)) w with
                   | (inl e, w1) => (inl e, w1)
                   | (inr index, w1) =>
                       repo.WriteFile sys env (repo.SortEntries index)
                         (filepath_Join sys [dir; repo.IndexPath]) w1
                   end).
  { unfold repo.GenerateFromDirectory, bind at 1, filepath_Glob. rewrite Hg1.
    unfold bind at 1. rewrite Hg2. unfold bind at 1, time_Now. unfold bind at 1.
    destruct (repo.generateLoop _ _ _ _ _ _ _) as [[e|index] w1]; reflexivity. }
  rewrite Hunf. split; [|split].
  - intros err w1 ->. reflexivity.
  - intros index w1 w' ->. unfold repo.WriteFile, bind, lift, ioutil_WriteFile.
    destruct (repo.json_Marshal_IndexFile env (repo.SortEntries index)) as [e|doc];
      [discriminate|].
    destruct (WriteFile_err sys w1 _); [discriminate|].
    intros [= <-]. exists doc. split; [reflexivity|]. split; [reflexivity|].
    intros name. unfold query.under, repo.SortEntries. simpl. rewrite lookup_fmap.
    destruct (repo.Entries index !! name); simpl; [apply Sort_canonical|exact I].
  - intros ->. simpl. unfold ret.
    unfold repo.SortEntries, repo.NewIndexFile, repo.set_Entries. simpl.
    rewrite fmap_empty. reflexivity.
Qed.

End GenerateAll.

Lemma GenerateFromDirectory_outcome_witness :
  repo.GenerateFromDirectory sample.sys sample.repo_env "repo" "" World_empty
  = (inr tt, set_files (<["repo/index.json" := "index"]>) World_empty).
Proof.
  rewrite (proj2 (proj2 (@GenerateFromDirectory_outcome semver3.lib semver3_order
                           sample.sys sample.repo_env "repo" "" World_empty [] []
                           eq_refl eq_refl)) eq_refl).
  reflexivity.
Defined.

(** ** The two generators *)
Section TwoGenerators.
Context (sys : OS) (env : repo.Env).

Lemma generateOne_same (dir baseURL : string) (index : repo.IndexFile)
  (bundleFile : string) (w : World) :
  tracked bundleFile = true ->
  snd (repo.generateOne sys env dir baseURL index bundleFile w)
  = snd (repo_tags.generateOne sys env dir baseURL bundleFile w)
  /\ same_outcome (fst (repo.generateOne sys env dir baseURL index bundleFile w))
                  (fst (repo_tags.generateOne sys env dir baseURL bundleFile w)).
Proof.
  unfold tracked. intros Ht. apply negb_true_iff in Ht.
  unfold repo.generateOne, repo_tags.generateOne. rewrite Ht.
  unfold repo.loader_Load, repo.provenance_DigestFile.
  unfold bind, ioutil_ReadFile, lift, act, ret, time_Now, os_MkdirAll, ioutil_WriteFile.
  destruct (files w !! bundleFile) as [data|] eqn:Hdata; simpl; [|auto].
  destruct (repo.bundle_Unmarshal env data) as [err|b]; simpl; [auto|].
  destruct (filepath_Rel sys dir bundleFile) as [err|rel]; simpl; [auto|].
  rewrite Hdata. simpl.
  match goal with
  | |- context [repo.json_Marshal_BundleEntry env ?e] => set (entry := e)
  end.
  destruct (repo.json_Marshal_BundleEntry env entry) as [err|doc]; simpl; [auto|].
  destruct (MkdirAll_err sys _ _); simpl; [auto|].
  destruct (WriteFile_err sys _ _); simpl; auto.
Qed.


End TwoGenerators.


(** * Further properties of the content store *)
Section StoreMore.
Context (sys : OS) {Key : Type} (env : store.Env Key).

Lemma writeUnder_cases (d data : string) (w : World) :
  (WriteFile_err sys w (filepath_Join sys [store.Bundles env; d]) = None
   /\ store.writeUnder sys env d data w
      = ((d, None),
         set_files (<[filepath_Join sys [store.Bundles env; d] := data]>) w))
  \/ (exists err,
        WriteFile_err sys w (filepath_Join sys [store.Bundles env; d]) = Some err
        /\ store.writeUnder sys env d data w = ((d, Some err), w)).
Proof.
  unfold store.writeUnder, ioutil_WriteFile.
  destruct (WriteFile_err sys w _) as [err|]; [right; eauto|left; auto].
Qed.

(** X15. [signAndWriteBundle] touches at most one file: after a failure
    the world is as it was, and the only failure that comes with a digest
    is the failed write of the file named by it; after a success the
    world differs by the one file under the store that is named by the
    digest. *)
Theorem signAndWriteBundle_world (bf : bundle.Bundle) (insecure : bool)
  (signer : string) (w : World) (d : string) (w' : World) :
  (forall err,
      store.signAndWriteBundle sys env bf insecure signer w = ((d, Some err), w') ->
      w' = w
      /\ (d = "" \/ WriteFile_err sys w (filepath_Join sys [store.Bundles env; d])
                    = Some err))
  /\ (store.signAndWriteBundle sys env bf insecure signer w = ((d, None), w') ->
      exists data,
        w' = set_files (<[filepath_Join sys [store.Bundles env; d] := data]>) w).
Proof.
  unfold store.signAndWriteBundle.
  assert (Hw : forall d0 data,
             (forall err, store.writeUnder sys env d0 data w = ((d, Some err), w') ->
                          w' = w /\ (d = "" \/ WriteFile_err sys w
                                                 (filepath_Join sys [store.Bundles env; d])
                                               = Some err))
             /\ (store.writeUnder sys env d0 data w = ((d, None), w') ->
                 exists data',
                   w' = set_files
                          (<[filepath_Join sys [store.Bundles env; d] := data']>) w)).
  { intros d0 data.
    destruct (writeUnder_cases d0 data w) as [[Hn ->]|(e & He & ->)]; split.
    - discriminate.
    - intros [= <- <-]. eauto.
    - intros err [= <- <- <-]. auto.
    - discriminate. }
  destruct insecure.
  - destruct (store.digest_OfBuffer env (store.fmt_v_Bundle bf)) as [e|d0]; [|apply Hw].
    split; [|discriminate]. intros err [= <- _ <-]. auto.
  - destruct (store.LoadKeyRing env w (store.SecretKeyRing env)) as [e|kr].
    { split; [|discriminate]. intros err [= <- _ <-]. auto. }
    destruct kr as [|first kr].
    { split; [|discriminate]. intros err [= <- _ <-]. auto. }
    destruct (if negb (String.eqb signer "") then _ else _) as [e|key].
    { split; [|discriminate]. intros err [= <- _ <-]. auto. }
    destruct (snd (store.Clearsign env key bf)) as [e|].
    { split; [|discriminate]. intros err [= <- _ <-]. auto. }
    destruct (store.digest_OfBuffer env _) as [e|d0]; [|apply Hw].
    split; [|discriminate]. intros err [= <- _ <-]. auto.
Qed.

(** X16. With signing, an empty key ring is an error; an empty signer
    name selects the first key of the ring, any other name the key the
    ring returns for it, and the error of the ring for an unknown name is
    returned as it is. What is written is the text signed with that key,
    followed by a newline. *)
Theorem signAndWriteBundle_signer (bf : bundle.Bundle) (signer : string)
  (w : World) (kr : list Key) :
  store.LoadKeyRing env w (store.SecretKeyRing env) = inr kr ->
  (kr = [] ->
   store.signAndWriteBundle sys env bf false signer w
   = (("", Some (errors_New "no signing keys are present in the keyring")), w))
  /\ (forall err, kr <> [] -> signer <> "" ->
        store.KeyRing_Key env kr signer = inl err ->
        store.signAndWriteBundle sys env bf false signer w = (("", Some err), w))
  /\ (forall first rest key d w',
        kr = first :: rest ->
        (signer = "" /\ key = first
         \/ signer <> "" /\ store.KeyRing_Key env kr signer = inr key) ->
        store.signAndWriteBundle sys env bf false signer w = ((d, None), w') ->
        files w' !! filepath_Join sys [store.Bundles env; d]
        = Some (fst (store.Clearsign env key bf) +:+ store.newline)).
Proof.
  intros Hkr. unfold store.signAndWriteBundle. rewrite Hkr. split; [|split].
  - intros ->. reflexivity.
  - intros err Hne Hs Hk. destruct kr as [|first rest]; [congruence|].
    destruct (String.eqb_spec signer ""); [congruence|]. simpl. rewrite Hk. reflexivity.
  - intros first rest key d w' -> Hsel.
    assert (Hkey : (if negb (String.eqb signer "")
                    then store.KeyRing_Key env (first :: rest) signer
                    else inr first) = inr key).
    { destruct Hsel as [[-> ->]|[Hs Hk]]; [reflexivity|].
      destruct (String.eqb_spec signer ""); [congruence|]. simpl. exact Hk. }
    rewrite Hkey.
    destruct (snd (store.Clearsign env key bf)); [discriminate|].
    destruct (store.digest_OfBuffer env _) as [e|d0]; [discriminate|].
    intros H. apply writeUnder_ok in H as [-> Hf]. exact Hf.
Qed.

(** X17. Storing without signing is repeatable: stored again in the
    world the first call left, the same bundle gets the same digest and
    the world stays as it is, as long as the write succeeds again. *)
Theorem signAndWriteBundle_again (bf : bundle.Bundle) (signer signer' : string)
  (w : World) (d : string) (w' : World) :
  store.signAndWriteBundle sys env bf true signer w = ((d, None), w') ->
  WriteFile_err sys w' (filepath_Join sys [store.Bundles env; d]) = None ->
  store.signAndWriteBundle sys env bf true signer' w' = ((d, None), w').
Proof.
  unfold store.signAndWriteBundle.
  destruct (store.digest_OfBuffer env (store.fmt_v_Bundle bf)) as [e|d0]; [discriminate|].
  intros H Hw'.
  destruct (writeUnder_cases d0 (store.fmt_v_Bundle bf) w) as [[Hn Heq]|(e & He & Heq)];
    rewrite Heq in H; [|discriminate].
  injection H as <- <-.
  unfold store.writeUnder, ioutil_WriteFile. rewrite Hw'.
  unfold set_files. simpl. rewrite insert_insert_eq. reflexivity.
Qed.

End StoreMore.

Lemma signAndWriteBundle_world_witness :
  exists data,
    snd (store.signAndWriteBundle sample.sys sample.store_env sample.bun true ""
           World_empty)
    = set_files (<["home/bundles/"
                   +:+ sample.checksum (store.fmt_v_Bundle sample.bun) := data]>)
        World_empty.
Proof.
  apply (proj2 (signAndWriteBundle_world sample.sys sample.store_env sample.bun true ""
                  World_empty (sample.checksum (store.fmt_v_Bundle sample.bun))
                  (snd (store.signAndWriteBundle sample.sys sample.store_env sample.bun
                          true "" World_empty)))).
  reflexivity.
Defined.

Lemma signAndWriteBundle_signer_witness :
  let r := store.signAndWriteBundle sample.sys sample.store_env sample.bun false ""
             World_empty in
  files (snd r) !! filepath_Join sample.sys [store.Bundles sample.store_env; fst (fst r)]
  = Some (fst (store.Clearsign sample.store_env "alice" sample.bun) +:+ store.newline).
Proof.
  intros r.
  destruct (signAndWriteBundle_signer sample.sys sample.store_env sample.bun ""
              World_empty ["alice"] eq_refl) as (_ & _ & H).
  apply (H "alice" [] "alice" (fst (fst r)) (snd r) eq_refl).
  - left. auto.
  - reflexivity.
Defined.

Lemma signAndWriteBundle_again_witness :
  let w1 := snd (store.signAndWriteBundle sample.sys sample.store_env sample.bun true ""
                   World_empty) in
  store.signAndWriteBundle sample.sys sample.store_env sample.bun true "alice" w1
  = ((sample.checksum (store.fmt_v_Bundle sample.bun), None), w1).
Proof.
  intros w1.
  apply (signAndWriteBundle_again sample.sys sample.store_env sample.bun "" "alice"
           World_empty); reflexivity.
Defined.

(** * Further properties of the resolver *)
Section ResolveMore.
Context (sys : OS) {Driver Credentials : Type} (env : main.Env Driver Credentials).

(** X18. A reference that does not parse, or that has a digest and no
    tag, fails before any request is made; a failed lookup request, a
    lookup answered with a status other than 200 (reported with the URL
    and the status) and an entry that does not decode end the resolution
    after that one request: no mirror is asked and nothing is written. *)
Theorem getBundleFile_early_failures (bundleName : string) (w : World) :
  let proto := fst (main.splitProto bundleName) in
  let name := snd (main.splitProto bundleName) in
  (forall err, main.ParseNormalizedNamed env name = inl err ->
     main.getBundleFile sys env bundleName w
     = (inl (fmt_Errorf ("failed to parse image name: " +:+ name +:+ ": "
                         +:+ error_msg err)), w))
  /\ (forall r d, main.ParseNormalizedNamed env name = inr r ->
        reference.tag r = None -> reference.digest r = Some d ->
        main.getBundleFile sys env bundleName w
        = (inl (fmt_Errorf ("unsupported image name: " +:+ reference.String_ r)), w))
  /\ (forall ref err, main.taggedRef env name = inr ref ->
        main.Get env w (main.lookupURL env proto ref) = inl err ->
        main.getBundleFile sys env bundleName w
        = (inl err, add_request (main.lookupURL env proto ref) w))
  /\ (forall ref resp, main.taggedRef env name = inr ref ->
        main.Get env w (main.lookupURL env proto ref) = inr resp ->
        main.StatusCode resp <> main.StatusOK ->
        main.getBundleFile sys env bundleName w
        = (inl (fmt_Errorf (main.non200 (main.lookupURL env proto ref)
                                        (main.StatusCode resp))),
           add_request (main.lookupURL env proto ref) w))
  /\ (forall ref resp err, main.taggedRef env name = inr ref ->
        main.Get env w (main.lookupURL env proto ref) = inr resp ->
        main.StatusCode resp = main.StatusOK ->
        main.decode_BundleEntry env (main.Body resp) = inl err ->
        main.getBundleFile sys env bundleName w
        = (inl err, add_request (main.lookupURL env proto ref) w)).
Proof.
  intros proto name. unfold main.getBundleFile. fold proto. fold name.
  split; [|split; [|split; [|split]]].
  - intros err Hp. unfold bind, lift, main.taggedRef. rewrite Hp. reflexivity.
  - intros r d Hp Ht Hd. unfold bind, lift, main.taggedRef, reference.IsNameOnly.
    rewrite Hp, Ht, Hd. reflexivity.
  - intros ref err Ht Hg. unfold bind, lift, main.http_Get. rewrite Ht, Hg. reflexivity.
  - intros ref resp Ht Hg Hs. unfold bind, lift, main.http_Get. rewrite Ht, Hg.
    apply Nat.eqb_neq in Hs. rewrite Hs. reflexivity.
  - intros ref resp err Ht Hg Hs Hd. unfold bind, lift, main.http_Get. rewrite Ht, Hg.
    apply Nat.eqb_eq in Hs. rewrite Hs. simpl. rewrite Hd. reflexivity.
Qed.

Lemma fetchMirrors_step (entry : repo.BundleEntry) url rest w :
  main.fetchMirrors sys env entry (url :: rest) w
  = match main.Get env w url with
    | inl e => (inl e, add_request url w)
    | inr resp =>
        if negb (main.StatusCode resp =? main.StatusOK)
        then main.fetchMirrors sys env entry rest
               (add_log (main.non200 url (main.StatusCode resp)) (add_request url w))
        else
          match main.bundle_ParseReader env (main.Body resp) with
          | inl e => (inl e, add_request url w)
          | inr b =>
              let path := filepath_Join sys
                            [main.Cache env;
                             bundle.Name b +:+ "-" +:+ bundle.Version b +:+ ".json"] in
              match main.json_Marshal_Bundle env b with
              | inl e => (inl e, add_request url w)
              | inr doc =>
                  match WriteFile_err sys (add_request url w) path with
                  | Some e => (inl e, add_request url w)
                  | None => (inr path, set_files (<[path := doc]>) (add_request url w))
                  end
              end
          end
    end.
Proof.
  simpl. unfold bind at 1. unfold main.http_Get.
  destruct (main.Get env w url) as [e|resp]; [reflexivity|].
  destruct (negb (main.StatusCode resp =? main.StatusOK)); [reflexivity|].
  unfold bind, lift, main.bundle_WriteFile, bind, lift, ioutil_WriteFile, ret.
  destruct (main.bundle_ParseReader env (main.Body resp)) as [e|b]; [reflexivity|].
  simpl. destruct (main.json_Marshal_Bundle env b) as [e|doc]; [reflexivity|].
  simpl. destruct (WriteFile_err sys _ _); reflexivity.
Qed.

(** X19. The mirrors are asked in the order of the list and none after
    the one that ended the loop; every mirror passed over left one line
    in the log; and a loop that fails has written no file. *)
Theorem fetchMirrors_in_order (entry : repo.BundleEntry) (urls : list string) :
  forall w, exists k,
    k <= length urls
    /\ requests (snd (main.fetchMirrors sys env entry urls w)) = requests w ++ take k urls
    /\ length (logs (snd (main.fetchMirrors sys env entry urls w)))
       <= length (logs w) + k
    /\ (forall err, fst (main.fetchMirrors sys env entry urls w) = inl err ->
          files (snd (main.fetchMirrors sys env entry urls w)) = files w).
Proof.
  induction urls as [|url rest IH]; intros w.
  - exists 0. simpl. rewrite app_nil_r. repeat split; intros; try reflexivity; lia.
  - rewrite fetchMirrors_step.
    destruct (main.Get env w url) as [e|resp].
    { exists 1. simpl. repeat split; intros; try reflexivity; lia. }
    destruct (negb (main.StatusCode resp =? main.StatusOK)).
    + destruct (IH (add_log (main.non200 url (main.StatusCode resp)) (add_request url w)))
        as (k & Hk & Hr & Hl & Hf).
      exists (S k). simpl in *. rewrite Hr, <- app_assoc. simpl.
      rewrite length_app in Hl. simpl in Hl.
      repeat split; try reflexivity; try lia. exact Hf.
    + exists 1.
      destruct (main.bundle_ParseReader env (main.Body resp)) as [e|b]; simpl;
        [repeat split; intros; try reflexivity; lia|].
      destruct (main.json_Marshal_Bundle env b) as [e|doc]; simpl;
        [repeat split; intros; try reflexivity; lia|].
      destruct (WriteFile_err sys _ _); simpl;
        repeat split; intros; try reflexivity; try lia.
      discriminate.
Qed.

Lemma fetchMirrors_file (entry : repo.BundleEntry) (urls : list string) :
  forall w path w',
    main.fetchMirrors sys env entry urls w = (inr path, w') ->
    exists b doc,
      main.json_Marshal_Bundle env b = inr doc
      /\ path = filepath_Join sys
                  [main.Cache env;
                   bundle.Name b +:+ "-" +:+ bundle.Version b +:+ ".json"]
      /\ files w' = <[path := doc]> (files w)
      /\ stored w' = stored w.
Proof.
  induction urls as [|url rest IH]; intros w path w'; [discriminate|].
  rewrite fetchMirrors_step.
  destruct (main.Get env w url) as [e|resp]; [discriminate|].
  destruct (negb (main.StatusCode resp =? main.StatusOK)).
  - intros H. destruct (IH _ _ _ H) as (b & doc & Hd & Hp & Hf & Hs).
    exists b, doc. auto.
  - destruct (main.bundle_ParseReader env (main.Body resp)) as [e|b]; [discriminate|].
    simpl. destruct (main.json_Marshal_Bundle env b) as [e|doc] eqn:Hd; [discriminate|].
    destruct (WriteFile_err sys _ _); [discriminate|].
    intros [= <- <-]. exists b, doc. auto.
Qed.

(** X20. A path returned by the loop over the mirrors is
    NAME-VERSION.json under the cache, for the name and version of a
    manifest that one of the listed mirrors served with status 200 after
    all mirrors before it had been passed over; the file at that path,
    written in this call, holds that manifest marshalled, and it is the
    only file that changed. *)
Theorem fetchMirrors_success (entry : repo.BundleEntry) (urls : list string) :
  forall w path w',
    main.fetchMirrors sys env entry urls w = (inr path, w') ->
    exists skipped url rest w0 resp b doc,
      urls = skipped ++ url :: rest
      /\ main.Get env w0 url = inr resp
      /\ main.StatusCode resp = main.StatusOK
      /\ main.bundle_ParseReader env (main.Body resp) = inr b
      /\ main.json_Marshal_Bundle env b = inr doc
      /\ path = filepath_Join sys
                  [main.Cache env;
                   bundle.Name b +:+ "-" +:+ bundle.Version b +:+ ".json"]
      /\ requests w' = requests w ++ skipped ++ [url]
      /\ length (logs w') = length (logs w) + length skipped
      /\ files w' = <[path := doc]> (files w)
      /\ stored w' = stored w.
Proof.
  induction urls as [|url rest IH]; intros w path w'; simpl; [discriminate|].
  unfold bind at 1. unfold main.http_Get.
  destruct (main.Get env w url) as [e|resp] eqn:Hg; [discriminate|].
  destruct (negb (main.StatusCode resp =? main.StatusOK)) eqn:Hs.
  - unfold bind at 1. unfold act. intros H.
    destruct (IH _ _ _ H)
      as (skipped & url' & rest' & w0 & resp' & b & doc & -> & Hg' & Hs' & Hb & Hd & Hp
          & Hr & Hl & Hf & Hst).
    exists (url :: skipped), url', rest', w0, resp', b, doc.
    simpl in *. rewrite Hr, Hl, Hf, Hst, <- app_assoc, length_app. simpl.
    repeat split; auto. lia.
  - apply negb_false_iff, Nat.eqb_eq in Hs.
    unfold bind, lift, main.bundle_WriteFile, bind, lift, ioutil_WriteFile, ret.
    destruct (main.bundle_ParseReader env (main.Body resp)) as [e|b] eqn:Hb; simpl;
      [discriminate|].
    destruct (main.json_Marshal_Bundle env b) as [e|doc] eqn:Hd; simpl; [discriminate|].
    destruct (WriteFile_err sys _ _); simpl; [discriminate|].
    intros [= <- <-].
    exists [], url, rest, w, resp, b, doc. simpl. repeat split; auto.
Qed.

(** X21. A path returned by [getBundleFile] names a file written in this
    call, the only file that changed; it holds the marshalled manifest of
    a bundle whose name and version make up the file name, and when
    decoding undoes the marshalling, [loadBundle] reads that bundle back
    from it. The claim store is not called. *)
Theorem getBundleFile_success (bundleName : string) (w : World) (path : string)
  (w' : World) :
  main.getBundleFile sys env bundleName w = (inr path, w') ->
  exists b doc,
    main.json_Marshal_Bundle env b = inr doc
    /\ path = filepath_Join sys
                [main.Cache env; bundle.Name b +:+ "-" +:+ bundle.Version b +:+ ".json"]
    /\ files w' = <[path := doc]> (files w)
    /\ stored w' = stored w
    /\ (main.loader_decode env doc = inr b ->
        main.loadBundle env path w' = (inr b, w')).
Proof.
  unfold main.getBundleFile. unfold bind at 1. unfold lift.
  destruct (main.taggedRef env _) as [e|ref]; [discriminate|].
  unfold bind at 1. unfold main.http_Get.
  destruct (main.Get env w _) as [e|resp]; [discriminate|].
  destruct (negb (main.StatusCode resp =? main.StatusOK)); [discriminate|].
  unfold bind at 1.
  destruct (main.decode_BundleEntry env (main.Body resp)) as [e|entry]; [discriminate|].
  intros H.
  destruct (fetchMirrors_file _ _ _ _ _ H) as (b & doc & Hd & Hp & Hf & Hst).
  exists b, doc. simpl in Hf, Hst. repeat split; auto.
  intros Hdec. unfold main.loadBundle, bind, ioutil_ReadFile, lift.
  rewrite Hf, lookup_insert_eq, Hdec. reflexivity.
Qed.

End ResolveMore.

Lemma getBundleFile_early_failures_witness :
  main.getBundleFile sample.sys (sample.env sample.net_missing None None)
    "name.example.org/other:1.0.0" World_empty
  = (inl (fmt_Errorf ("failed to parse image name: name.example.org/other:1.0.0: "
                      +:+ "invalid reference format")), World_empty).
Proof.
  exact (proj1 (getBundleFile_early_failures sample.sys
                  (sample.env sample.net_missing None None)
                  "name.example.org/other:1.0.0" World_empty)
           (errors_New "invalid reference format") eq_refl).
Defined.

Lemma fetchMirrors_success_witness :
  exists b doc,
    main.json_Marshal_Bundle (sample.env sample.net_missing None None) b = inr doc
    /\ files (snd (main.fetchMirrors sample.sys (sample.env sample.net_missing None None)
                     sample.mirrored [sample.mirror1; sample.mirror2] World_empty))
       = <["home/cache/bundle-1.0.0.json" := doc]> ∅.
Proof.
  pose (r := main.fetchMirrors sample.sys (sample.env sample.net_missing None None)
               sample.mirrored [sample.mirror1; sample.mirror2] World_empty).
  destruct (fetchMirrors_success sample.sys (sample.env sample.net_missing None None)
              sample.mirrored [sample.mirror1; sample.mirror2] World_empty
              "home/cache/bundle-1.0.0.json" (snd r))
    as (skipped & url & rest & w0 & resp & b & doc & _ & _ & _ & _ & Hd & _ & _ & _
        & Hf & _).
  - vm_compute. reflexivity.
  - exists b, doc. split; [exact Hd|exact Hf].
Defined.

Lemma getBundleFile_success_witness :
  exists b doc,
    main.json_Marshal_Bundle (sample.env sample.net_missing None None) b = inr doc
    /\ files (snd (main.getBundleFile sample.sys (sample.env sample.net_missing None None)
                     "name.example.org/bundle:1.0.0" World_empty))
       = <["home/cache/bundle-1.0.0.json" := doc]> ∅.
Proof.
  pose (r := main.getBundleFile sample.sys (sample.env sample.net_missing None None)
               "name.example.org/bundle:1.0.0" World_empty).
  destruct (getBundleFile_success sample.sys (sample.env sample.net_missing None None)
              "name.example.org/bundle:1.0.0" World_empty
              "home/cache/bundle-1.0.0.json" (snd r))
    as (b & doc & Hd & _ & Hf & _).
  - vm_compute. reflexivity.
  - exists b, doc. split; [exact Hd|exact Hf].
Defined.

(** * Further properties of the install command *)
Section InstallMore.
Context (sys : OS) {Driver Credentials : Type} (env : main.Env Driver Credentials).

Lemma untouched_refl w : untouched w w.
Proof. reflexivity. Qed.

Lemma untouched_trans a b c : untouched a b -> untouched b c -> untouched a c.
Proof. unfold untouched. congruence. Qed.

Lemma parseValues_untouched file : respects untouched (main.parseValues sys env file).
Proof.
  unfold main.parseValues.
  repeat match goal with
         | |- respects untouched (if ?c then _ else _) => destruct c
         end;
    try apply respects_fail, untouched_refl;
    (apply respects_bind;
     [exact untouched_trans|apply respects_ReadFile, untouched_refl|]);
    intros data; apply respects_lift, untouched_refl.
Qed.

Lemma bundleFileOrArg2_local args bf :
  length args <> 2 -> respects untouched (main.bundleFileOrArg2 sys env args bf).
Proof.
  intros Hn. unfold main.bundleFileOrArg2.
  apply Nat.eqb_neq in Hn. rewrite Hn. simpl.
  repeat match goal with
         | |- respects untouched (if ?c then _ else _) => destruct c
         end;
    try apply respects_fail, untouched_refl; apply respects_ret, untouched_refl.
Qed.

Lemma prepare_local args fl :
  length args <> 2 -> respects untouched (main.prepare sys env args fl).
Proof.
  intros Hn. unfold main.prepare.
  apply respects_bind; [exact untouched_trans|apply bundleFileOrArg2_local, Hn|].
  intros bundleFile.
  apply respects_bind; [exact untouched_trans| |].
  { unfold main.loadBundle.
    apply respects_bind;
      [exact untouched_trans|apply respects_ReadFile, untouched_refl|].
    intros data. apply respects_lift, untouched_refl. }
  intros bun.
  apply respects_bind; [exact untouched_trans| |].
  { unfold main.check. destruct (main.validateImage _);
      [apply respects_fail, untouched_refl|apply respects_ret, untouched_refl]. }
  intros _.
  apply respects_bind; [exact untouched_trans|apply respects_lift, untouched_refl|].
  intros driverImpl.
  apply respects_bind; [exact untouched_trans|apply respects_read, untouched_refl|].
  intros creds.
  apply respects_bind; [exact untouched_trans|apply respects_lift, untouched_refl|].
  intros c.
  apply respects_bind;
    [exact untouched_trans| |intros c3; apply respects_ret, untouched_refl].
  destruct (negb (String.eqb (main.valuesFile fl) ""));
    [|apply respects_ret, untouched_refl].
  apply respects_bind;
    [exact untouched_trans|apply parseValues_untouched
    |intros vals; apply respects_ret, untouched_refl].
Qed.

(** X22. Installing from a file ([-f], any number of arguments but two)
    makes no request, writes no file and logs nothing: the world after
    the command is the world before it, or that world with the action
    announced on standard output and one claim handed to the store. *)
Theorem install_local_file (args : list string) (fl : main.Flags) (w : World) :
  length args <> 2 ->
  snd (main.install sys env args fl w) = w
  \/ exists c,
       snd (main.install sys env args fl w)
       = add_stored c (add_stdout "Executing install action..." w).
Proof.
  intros Hn. pose proof (prepare_local args fl Hn w) as Hp. unfold untouched in Hp.
  unfold main.install, bind.
  destruct (main.prepare sys env args fl w) as [[e|[[d creds] c]] w1]; simpl in *; subst.
  - left. reflexivity.
  - right. unfold main.execute, main.claimStorage_Store. simpl.
    exists (fst (main.Install_Run env (add_stdout "Executing install action..." w)
                   d c creds)).
    destruct (snd (main.Install_Run env _ d c creds));
      [reflexivity|destruct (main.Store_err env _ _); reflexivity].
Qed.

(** X23. The argument check of the command: a bundle argument together
    with [-f], or a name alone without [-f], or no argument at all, is an
    error that leaves the world as it was; with three or more arguments
    the file of the flag is taken as it is, even when it is empty. *)
Theorem install_bad_arguments (args : list string) (fl : main.Flags) (w : World) :
  (length args = 2 -> main.bundleFile fl <> "" ->
   main.install sys env args fl w
   = (inl (errors_New "please use either -f or specify a BUNDLE, but not both"), w))
  /\ (length args = 1 -> main.bundleFile fl = "" ->
      main.install sys env args fl w
      = (inl (errors_New "required arguments are NAME (name of the installation) and BUNDLE (CNAB bundle name) or file"), w))
  /\ (args = [] -> exists err, main.install sys env args fl w = (inl err, w))
  /\ (3 <= length args ->
      main.bundleFileOrArg2 sys env args (main.bundleFile fl) w
      = (inr (main.bundleFile fl), w)).
Proof.
  unfold main.install, main.prepare, main.bundleFileOrArg2.
  split; [|split; [|split]].
  - intros Hl Hb. unfold bind at 1. unfold bind at 1. rewrite Hl. simpl.
    destruct (String.eqb_spec (main.bundleFile fl) ""); [congruence|]. reflexivity.
  - intros Hl Hb. unfold bind at 1. unfold bind at 1. rewrite Hl, Hb. reflexivity.
  - intros ->. eexists. unfold bind at 1. unfold bind at 1. simpl. reflexivity.
  - intros Hl.
    destruct (Nat.ltb_spec (length args) 1); [lia|].
    destruct (Nat.eqb_spec (length args) 2); [lia|].
    destruct (Nat.ltb_spec (length args) 2); [lia|]. reflexivity.
Qed.

Lemma prepare_no_action args fl : respects no_action (main.prepare sys env args fl).
Proof.
  apply prepare_respects.
  - split; reflexivity.
  - unfold no_action. intros a b c [H1 H2] [H3 H4]. split; congruence.
  - split; reflexivity.
  - split; reflexivity.
  - split; reflexivity.
Qed.

(** X24. When the command fails before the install action (arguments,
    resolution, manifest, image check, driver, credentials, claim or
    parameters), it returns that error, the action is not announced and
    the claim store is not called. *)
Theorem install_fails_early (args : list string) (fl : main.Flags) (w : World)
  (err : error) (w1 : World) :
  main.prepare sys env args fl w = (inl err, w1) ->
  main.install sys env args fl w = (inl err, w1)
  /\ stored w1 = stored w
  /\ stdout w1 = stdout w.
Proof.
  intros Hp. pose proof (prepare_no_action args fl w) as [Hs Ho].
  rewrite Hp in Hs, Ho. simpl in *.
  unfold main.install, bind. rewrite Hp. auto.
Qed.

(** X25. The command returns no error exactly when it got as far as the
    install action and both the action and the claim store succeeded. *)
Theorem install_ok_iff (args : list string) (fl : main.Flags) (w : World) :
  fst (main.install sys env args fl w) = inr tt <->
  exists d creds c w1,
    main.prepare sys env args fl w = (inr (d, creds, c), w1)
    /\ snd (main.Install_Run env (add_stdout "Executing install action..." w1) d c creds)
       = None
    /\ main.Store_err env (add_stdout "Executing install action..." w1)
         (fst (main.Install_Run env (add_stdout "Executing install action..." w1)
                 d c creds))
       = None.
Proof.
  unfold main.install, bind.
  destruct (main.prepare sys env args fl w) as [[e|[[d creds] c]] w1]; simpl.
  - split; [discriminate|]. intros (? & ? & ? & ? & ? & _). discriminate.
  - unfold main.execute, main.claimStorage_Store. simpl. split.
    + destruct (snd (main.Install_Run env _ d c creds)) eqn:Hr; [discriminate|].
      destruct (main.Store_err env _ _) eqn:Hs; [discriminate|].
      intros _. exists d, creds, c, w1. auto.
    + intros (d' & creds' & c' & w1' & [= <- <- <- <-] & Hr & Hs).
      rewrite Hr, Hs. reflexivity.
Qed.

(** X26. The claim handed to the install action: it is the claim
    [claim.New] made for the first argument, with the image and the image
    type of the manifest's invocation image, which passed the image
    check; without a parameters file its parameters are those of the new
    claim. *)
Theorem prepare_claim (args : list string) (fl : main.Flags) (w : World)
  (d : Driver) (creds : Credentials) (c : claim.Claim) (w1 : World) :
  main.prepare sys env args fl w = (inr (d, creds, c), w1) ->
  exists path data bun c0,
    fst (main.bundleFileOrArg2 sys env args (main.bundleFile fl) w) = inr path
    /\ files w1 !! path = Some data
    /\ main.loader_decode env data = inr bun
    /\ main.validateImage (bundle.InvocationImage_ bun) = None
    /\ main.prepareDriver env (main.installDriver fl) = inr d
    /\ main.loadCredentials env w1 (main.credentialsFile fl) = inr creds
    /\ main.claim_New env (nth 0 args "") = inr c0
    /\ claim.Name c = claim.Name c0
    /\ claim.Result c = claim.Result c0
    /\ claim.Bundle c = bundle.InvocationImage_Image (bundle.InvocationImage_ bun)
    /\ claim.ImageType c = bundle.ImageType (bundle.InvocationImage_ bun)
    /\ (main.valuesFile fl = "" -> claim.Parameters c = claim.Parameters c0).
Proof.
  unfold main.prepare. unfold bind at 1.
  destruct (main.bundleFileOrArg2 sys env args (main.bundleFile fl) w)
    as [[e|path] w0]; [discriminate|].
  unfold bind at 1. unfold main.loadBundle, bind at 1, ioutil_ReadFile, lift.
  destruct (files w0 !! path) as [data|] eqn:Hdata; [|discriminate].
  destruct (main.loader_decode env data) as [e|bun] eqn:Hbun; [discriminate|].
  unfold bind at 1. unfold main.check.
  destruct (main.validateImage (bundle.InvocationImage_ bun)) eqn:Hval;
    [discriminate|]. unfold ret at 1.
  unfold bind at 1.
  destruct (main.prepareDriver env (main.installDriver fl)) as [e|d0] eqn:Hdrv;
    [discriminate|].
  unfold bind at 1.
  destruct (main.loadCredentials env w0 (main.credentialsFile fl)) as [e|creds0] eqn:Hcr;
    [discriminate|].
  unfold bind at 1.
  destruct (main.claim_New env (nth 0 args "")) as [e|c0] eqn:Hc0; [discriminate|].
  unfold bind at 1.
  destruct (String.eqb_spec (main.valuesFile fl) "") as [Hv|Hv]; simpl.
  - unfold ret. intros [= <- <- <- <-].
    exists path, data, bun, c0. repeat split; auto.
  - unfold bind at 1.
    pose proof (parseValues_untouched (main.valuesFile fl) w0) as Hw.
    unfold untouched in Hw.
    destruct (main.parseValues sys env (main.valuesFile fl) w0) as [[e|vals] w2];
      [discriminate|]. simpl in Hw. subst w2.
    unfold ret. intros [= <- <- <- <-].
    exists path, data, bun, c0. repeat split; auto. congruence.
Qed.

End InstallMore.

Lemma install_local_file_witness :
  snd (main.install sample.sys (sample.env sample.net_missing None None)
         ["my_release"] sample.flags sample.disk) = sample.disk
  \/ exists c,
       snd (main.install sample.sys (sample.env sample.net_missing None None)
              ["my_release"] sample.flags sample.disk)
       = add_stored c (add_stdout "Executing install action..." sample.disk).
Proof.
  apply (install_local_file sample.sys (sample.env sample.net_missing None None)
           ["my_release"] sample.flags sample.disk).
  simpl. lia.
Defined.

Lemma install_bad_arguments_witness :
  main.install sample.sys (sample.env sample.net_missing None None)
    ["my_release"; "name.example.org/bundle:1.0.0"] sample.flags sample.disk
  = (inl (errors_New "please use either -f or specify a BUNDLE, but not both"),
     sample.disk).
Proof.
  apply (proj1 (install_bad_arguments sample.sys (sample.env sample.net_missing None None)
                  ["my_release"; "name.example.org/bundle:1.0.0"] sample.flags
                  sample.disk)); [reflexivity|discriminate].
Defined.

Lemma install_fails_early_witness :
  stored (snd (main.install sample.sys (sample.env sample.net_missing None None)
                 ["my_release"] sample.flags World_empty)) = [].
Proof.
  pose (r := main.prepare sample.sys (sample.env sample.net_missing None None)
               ["my_release"] sample.flags World_empty).
  destruct (install_fails_early sample.sys (sample.env sample.net_missing None None)
              ["my_release"] sample.flags World_empty
              (errors_New "open bundle.json: no such file or directory") (snd r))
    as (Hi & Hs & _).
  - vm_compute. reflexivity.
  - rewrite Hi. exact Hs.
Defined.

Lemma prepare_claim_witness :
  exists c0,
    main.claim_New (sample.env sample.net_missing None None) "my_release" = inr c0
    /\ claim.Name sample.my_claim = claim.Name c0
    /\ claim.Bundle sample.my_claim = "bundle:1.0.0".
Proof.
  destruct (prepare_claim sample.sys (sample.env sample.net_missing None None)
              ["my_release"] sample.flags sample.disk
              "docker" "" sample.my_claim sample.disk eq_refl)
    as (path & data & bun & c0 & _ & _ & _ & _ & _ & _ & Hc0 & Hn & _ & _ & _ & _).
  exists c0. split; [exact Hc0|]. split; [exact Hn|reflexivity].
Defined.

(** * Writing and reading an index; the image check *)
Section RoundTrip.
Context {L : semver.Lib} (sys : OS) (env : repo.Env).


End RoundTrip.


Lemma prefix_empty (s : string) : String.prefix "" s = true.
Proof. destruct s; reflexivity. Qed.

Lemma Contains_colon (s : string) :
  strings.Contains s ":" = true <-> exists a b, s = a +:+ String ":" b.
Proof.
  unfold strings.Contains. induction s as [|c s IH].
  - simpl. split; [discriminate|]. intros ([|? ?] & b & H); discriminate.
  - change (index 0 ":" (String c s))
      with (if String.prefix ":" (String c s) then Some 0
            else match index 0 ":" s with
                 | Some n => Some (S n)
                 | None => None
                 end).
    change (String.prefix ":" (String c s))
      with (match ascii_dec ":" c with
            | left _ => String.prefix "" s
            | right _ => false
            end).
    destruct (ascii_dec ":" c) as [Hc|Hc].
    + rewrite prefix_empty. split; [|reflexivity]. intros _.
      exists "", s. rewrite <- Hc. reflexivity.
    + destruct (index 0 ":" s) as [n|].
      * split; [|reflexivity]. intros _.
        destruct (proj1 IH eq_refl) as (a & b & ->). exists (String c a), b. reflexivity.
      * split; [discriminate|]. intros ([|c' a] & b & H); simpl in H.
        { injection H as Hc' _. congruence. }
        injection H as _ ->.
        assert (Hx : false = true) by (apply IH; eauto). discriminate.
Qed.

(** X28. The image check accepts an invocation image of type "docker" or
    "oci" exactly when its reference has a colon somewhere (that of a
    registry port counts, and nothing need follow it); every other image
    type is accepted as it is; the only error is "version is required". *)
Theorem validateImage_colon (img : bundle.InvocationImage) :
  (main.validateImage img = None <->
   (bundle.ImageType img <> "docker" /\ bundle.ImageType img <> "oci")
   \/ exists a b, bundle.InvocationImage_Image img = a +:+ String ":" b)
  /\ (forall err, main.validateImage img = Some err ->
        err = errors_New "version is required").
Proof.
  unfold main.validateImage, main.validateDockerish.
  destruct (String.eqb_spec (bundle.ImageType img) "docker") as [Hd|Hd];
    destruct (String.eqb_spec (bundle.ImageType img) "oci") as [Ho|Ho]; simpl;
    try (destruct (strings.Contains (bundle.InvocationImage_Image img) ":") eqn:Hc;
         simpl; (split; [split|]);
         [ intros _; right; apply Contains_colon, Hc
         | reflexivity
         | discriminate
         | discriminate
         | intros [[? ?]|H]; [congruence|];
           apply Contains_colon in H; congruence
         | intros err [= <-]; reflexivity ]).
  split; [split; auto|discriminate].
Qed.
